(** * The AArch64 back end of manticore: register file, mnemonic
    canonicalization, operands and ABIs.

    A shallow embedding of [manticore/native/cpu/aarch64.py].  Python
    dictionaries are finite maps, Python integers are [Z], exceptions and
    the mutation of the register cache are threaded through a small
    state-and-exception monad. *)

From stdpp Require Import base gmap strings list pretty.
From Stdlib Require Import ZArith Lia Ascii String.

Open Scope Z_scope.

(** * The embedding *)

(** ** Exceptions and the state-and-exception monad *)

(** The [assert] statements of the file, one constructor per asserted
    condition. *)
Inductive assertion :=
| register_in_self      (* assert register in self        (read, write) *)
| value_le_max          (* assert value <= 2 ** size - 1  (write) *)
| nbits_is_None         (* assert nbits is None           (operand read, write) *)
| not_with_carry.       (* assert not with_carry          (operand read) *)

Inductive exception :=
| AssertionError (a : assertion)
| NotImplementedError
| KeyError (key : string).

(** The error taxonomy of the specification, by the statement that raises. *)
Definition InvalidRegisterError : exception := AssertionError register_in_self.
Definition ValueOutOfRangeError : exception := AssertionError value_le_max.
Definition UnsupportedOperandKindError : exception := NotImplementedError.

Inductive outcome (A : Type) :=
| Returns (a : A)
| Raises (e : exception).
Arguments Returns {A} a.
Arguments Raises {A} e.

(** A computation over a mutable state [S]: the outcome and the state it
    leaves behind (also when it raises). *)
Definition Py (S A : Type) : Type := S → outcome A * S.

#[export] Instance Py_ret {S} : MRet (Py S) := λ A a s, (Returns a, s).

#[export] Instance Py_bind {S} : MBind (Py S) := λ A B f m s,
  match m s with
  | (Returns a, s') => f a s'
  | (Raises e, s') => (Raises e, s')
  end.

Definition raise {S A} (e : exception) : Py S A := λ s, (Raises e, s).

Definition py_assert {S} (cond : bool) (a : assertion) : Py S () :=
  if cond then mret () else raise (AssertionError a).

Definition get_state {S} : Py S S := λ s, (Returns s, s).

Definition set_state {S} (s' : S) : Py S () := λ _, (Returns (), s').

(** [d[key]] on a dictionary. *)
Definition getitem {S V} (d : gmap string V) (key : string) : Py S V :=
  match d !! key with
  | Some v => mret v
  | None => raise (KeyError key)
  end.

(** ** The value domain *)

(** Modelled from the spec: the symbolic expressions of the expression
    engine ([...core.smtlib], not part of this file): opaque terms of known
    bit-width with the builders the register file and the ABI use, bounded
    extraction and addition of a constant. *)
Inductive BitVec :=
| BitVecVariable (size : Z) (name : string)
| BitVecConstant (size : Z) (value : Z)
| BitVecAdd (a b : BitVec)
| BitVecExtract (e : BitVec) (offset size : Z).

Fixpoint BitVec_size (e : BitVec) : Z :=
  match e with
  | BitVecVariable size _ => size
  | BitVecConstant size _ => size
  | BitVecAdd a _ => BitVec_size a
  | BitVecExtract _ _ size => size
  end.

(** A value is a concrete Python integer or a symbolic expression. *)
Inductive Value :=
| VInt (z : Z)
| VSym (e : BitVec).

(** The meaning of an expression under an assignment of its variables. *)
Fixpoint BitVec_eval (ρ : string → Z) (e : BitVec) : Z :=
  match e with
  | BitVecVariable size name => ρ name `mod` 2 ^ size
  | BitVecConstant size value => value `mod` 2 ^ size
  | BitVecAdd a b => (BitVec_eval ρ a + BitVec_eval ρ b) `mod` 2 ^ BitVec_size a
  | BitVecExtract e offset size =>
      Z.land (Z.shiftr (BitVec_eval ρ e) offset) (Z.shiftl 1 size - 1)
  end.

Definition Value_eval (ρ : string → Z) (v : Value) : Z :=
  match v with
  | VInt z => z
  | VSym e => BitVec_eval ρ e
  end.

(** Modelled from the spec: [Operators.EXTRACT(value, offset, width)], the
    bounded extraction of the value domain: a bitmask on a concrete value,
    an extraction expression on a symbolic one. *)
Definition EXTRACT (x : Value) (offset size : Z) : Value :=
  match x with
  | VSym e => VSym (BitVecExtract e offset size)
  | VInt z => VInt (Z.land (Z.shiftr z offset) (Z.shiftl 1 size - 1))
  end.

(** ** Register cells *)

(** Modelled from the spec: the register cell ([.register.Register], not
    part of this file): a cell of fixed width whose stored value [v]
    satisfies [0 ≤ v < 2^width]; a write replaces the whole stored value, a
    concrete integer being kept within the width of the cell. *)
Record Register := mkRegister { width : Z; value : Value }.

Definition Register_new (width : Z) : Register :=
  {| width := width; value := VInt 0 |}.

Definition Register_read (r : Register) : Value := value r.

Definition Register_write (r : Register) (val : Z) : Register :=
  {| width := width r; value := EXTRACT (VInt val) 0 (width r) |}.

(** [self._registers]: one cell per parent register. *)
Abbreviation registers := (gmap string Register).

(** ** [class Aarch64RegisterFile] *)

Module Aarch64RegisterFile.

Record Regspec := mkRegspec { parent : string; size : Z }.

(** [f'X{i}'] and the like. *)
Definition fmt (prefix : string) (i : nat) : string := prefix +:+ pretty i.

(** Body of [for i in range(31)]. *)
Definition general_purpose (t : gmap string Regspec) (i : nat)
  : gmap string Regspec :=
  <[fmt "W" i := mkRegspec (fmt "X" i) 32]>
    (<[fmt "X" i := mkRegspec (fmt "X" i) 64]> t).

(** Body of [for i in range(32)]. *)
Definition simd_fp (t : gmap string Regspec) (i : nat) : gmap string Regspec :=
  <[fmt "B" i := mkRegspec (fmt "Q" i) 8]>
    (<[fmt "H" i := mkRegspec (fmt "Q" i) 16]>
      (<[fmt "S" i := mkRegspec (fmt "Q" i) 32]>
        (<[fmt "D" i := mkRegspec (fmt "Q" i) 64]>
          (<[fmt "Q" i := mkRegspec (fmt "Q" i) 128]> t)))).

Definition _table : gmap string Regspec :=
  let t := foldl general_purpose ∅ (seq 0 31) in
  let t := <["SP" := mkRegspec "SP" 64]> t in
  let t := <["WSP" := mkRegspec "SP" 32]> t in
  let t := <["PC" := mkRegspec "PC" 64]> t in
  let t := foldl simd_fp t (seq 0 32) in
  let t := <["FPCR" := mkRegspec "FPCR" 64]> t in
  let t := <["FPSR" := mkRegspec "FPSR" 64]> t in
  let t := <["NZCV" := mkRegspec "NZCV" 64]> t in
  let t := <["XZR" := mkRegspec "XZR" 64]> t in
  <["WZR" := mkRegspec "XZR" 32]> t.

(** The alias dictionary built in [__init__]. *)
Definition _aliases : gmap string string :=
  list_to_map
    [("STACK", "SP"); ("FP", "X29"); ("IP1", "X17"); ("IP0", "X16");
     ("LR", "X30")].

(** Modelled from the spec: alias resolution of the base class
    ([RegisterFile._alias] of [.abstractcpu], not part of this file): the
    alias layer maps an alias name to its canonical name, every other name
    resolves to itself. *)
Definition _alias (register : string) : string :=
  default register (_aliases !! register).

(** Modelled from the spec: [register in self] ([RegisterFile.__contains__]
    of [.abstractcpu], not part of this file): true iff the name is a key of
    the alias layer or of the table. *)
Definition contains (register : string) : bool :=
  bool_decide (is_Some (_aliases !! register))
  || bool_decide (is_Some (_table !! register)).

(** *** [read] and [write] *)

(** The cache built by [__init__]: the loop over [self._table.keys()] adds
    a cell for every name that is its own parent. *)
Definition init_cell (name : string) (spec : Regspec) : option Register :=
  if decide (name ≠ parent spec) then None
  else Some (Register_new (size spec)).

Definition init : registers := map_imap init_cell _table.

Definition read (register : string) : Py registers Value :=
  py_assert (contains register) register_in_self;;
  let name := _alias register in
  spec ← getitem _table name;
  _registers ← get_state;
  cell ← getitem _registers (parent spec);
  let value := Register_read cell in
  if decide (name ≠ parent spec) then
    pspec ← getitem _table (parent spec);
    if size spec <? size pspec then mret (EXTRACT value 0 (size spec))
    else mret value
  else mret value.

(** [write] on a concrete integer: on a symbolic value the comparison of
    the second assertion is an expression of the external engine. *)
Definition write (register : string) (value : Z) : Py registers () :=
  py_assert (contains register) register_in_self;;
  let name := _alias register in
  spec ← getitem _table name;
  py_assert (value <=? 2 ^ size spec - 1) value_le_max;;
  _registers ← get_state;
  cell ← getitem _registers (parent spec);
  set_state (<[parent spec := Register_write cell value]> _registers).

(** [self._all_registers]: [__init__] adds every key of the table. *)
Definition _all_registers : gset string := dom _table.

Definition all_registers : gset string := _all_registers.

Definition canonical_registers : gset string :=
  let not_supported : gset string := ∅ in
  let not_supported := not_supported ∪ {["FPSR"]} in
  let not_supported := not_supported ∪ {["FPCR"]} in
  _all_registers ∖ not_supported.

End Aarch64RegisterFile.

Import Aarch64RegisterFile.

(** ** [class Aarch64Cpu] *)

Module Aarch64Cpu.

Definition address_bit_size : Z := 64.

(** The module-level dictionary [INSTRUCTION_MAPPINGS]; it is empty. *)
Definition INSTRUCTION_MAPPINGS : gmap string string := ∅.

(** What [canonicalize_instruction_name] uses of a decoded instruction:
    [instr.insn_name()] and [instr.mnemonic]. *)
Record CsInsn := mkCsInsn { insn_name : string; mnemonic : string }.

(** [str.upper] on the ASCII text the decoder reports. *)
Definition upper_char (c : ascii) : ascii :=
  let n := Ascii.N_of_ascii c in
  if ((97 <=? n) && (n <=? 122))%N then Ascii.ascii_of_N (n - 32) else c.

Fixpoint upper (s : string) : string :=
  match s with
  | EmptyString => EmptyString
  | String c s' => String (upper_char c) (upper s')
  end.

(** [s.startswith(prefix)]. *)
Fixpoint startswith (s prefix : string) : bool :=
  match prefix, s with
  | EmptyString, _ => true
  | String a prefix', String b s' => Ascii.eqb a b && startswith s' prefix'
  | String _ _, EmptyString => false
  end.

Definition canonicalize_instruction_name (instr : CsInsn) : string :=
  let name := upper (insn_name instr) in
  let mapped := default name (INSTRUCTION_MAPPINGS !! name) in
  if decide (name = "MOV") then
    if startswith (mnemonic instr) "lsr" then "LSR"
    else if startswith (mnemonic instr) "lsl" then "LSL"
    else if startswith (mnemonic instr) "asr" then "ASR"
    else mapped
  else mapped.

(** Modelled from the spec: attribute access [cpu.STACK] ([Cpu.__getattr__]
    of [.abstractcpu], not part of this file): the current value of the
    stack-pointer register, read from the register file under the alias
    [STACK]. *)
Definition STACK : Py registers Value := read "STACK".

(** Modelled from the spec: attribute access [cpu.<name>] for a register
    name ([Cpu.__getattr__]/[Cpu.__setattr__] of [.abstractcpu], not part of
    this file): reading the attribute reads the register, assigning to it
    writes the register, both through the register file. *)
Definition getattr (name : string) : Py registers Value := read name.

Definition setattr (name : string) (value : Z) : Py registers () :=
  write name value.

End Aarch64Cpu.

(** ** Generators *)

(** An argument location: a register name or a stack address. *)
Inductive location :=
| RegLoc (name : string)
| StackLoc (address : Value).

(** Modelled from the spec: [value + n] for a Python integer [n] in the
    value domain: integer addition on a concrete value, an addition
    expression of the expression engine on a symbolic one. *)
Definition Value_add (v : Value) (n : Z) : Value :=
  match v with
  | VInt z => VInt (z + n)
  | VSym e => VSym (BitVecAdd e (BitVecConstant (BitVec_size e) n))
  end.

Section generators.
Context {G A : Type}.

(** One [next()] on a generator in state [g]: the value yielded and the
    state the generator is suspended in, or [None] on [StopIteration]. *)
Variable next : G → Py registers (option (A * G)).

(** A consumer that requests [n] values, one after the other. *)
Fixpoint consume (n : nat) (g : G) : Py registers (list A) :=
  match n with
  | O => mret []
  | S n' =>
      r ← next g;
      match r with
      | None => mret []
      | Some (x, g') => xs ← consume n' g'; mret (x :: xs)
      end
  end.
End generators.

(** ** [class Aarch64CdeclAbi] *)

Module Aarch64CdeclAbi.

Definition argument_registers : list string :=
  ["X0"; "X1"; "X2"; "X3"; "X4"; "X5"; "X6"; "X7"].

(** Where the generator [get_arguments] is suspended: in the first loop,
    before its [i]-th register, or in the second loop, inside
    [values_from] with its local variable [base]. *)
Inductive frame :=
| in_registers (i : nat)
| in_values_from (base : Value).

(** Modelled from the spec: the step of successive stack slots
    ([Abi.values_from] of [.abstractcpu], not part of this file): one slot
    per request at increasing offsets, a slot being one machine word of
    [address_bit_size] bits. *)
Definition word_bytes : Z := Aarch64Cpu.address_bit_size `div` 8.

(** Modelled from the spec: one request to [values_from] suspended with
    [base]: it yields [base]; the following slot is one word higher. *)
Definition values_from_next (base : Value) : location * frame :=
  (StackLoc base, in_values_from (Value_add base word_bytes)).

(** The generator that a call of [get_arguments] returns. *)
Definition get_arguments : frame := in_registers 0.

Definition next (g : frame) : Py registers (option (location * frame)) :=
  match g with
  | in_registers i =>
      match argument_registers !! i with
      | Some reg => mret (Some (RegLoc reg, in_registers (S i)))
      | None => base ← Aarch64Cpu.STACK; mret (Some (values_from_next base))
      end
  | in_values_from base => mret (Some (values_from_next base))
  end.

(** [write_result] on a concrete integer, as [write]. *)
Definition write_result (result : Z) : Py registers () :=
  Aarch64Cpu.setattr "X0" result.

End Aarch64CdeclAbi.

(** ** [class Aarch64LinuxSyscallAbi] *)

Module Aarch64LinuxSyscallAbi.

(** The generator expression [('X{}'.format(i) for i in range(6))],
    suspended before index [i] of the range. *)
Definition get_arguments : nat := 0%nat.

Definition next (i : nat) : Py registers (option (location * nat)) :=
  if decide (i < 6)%nat then mret (Some (RegLoc (fmt "X" i), S i))
  else mret None.

Definition syscall_number : Py registers Value := Aarch64Cpu.getattr "X8".

(** [write_result] on a concrete integer, as [write]. *)
Definition write_result (result : Z) : Py registers () :=
  Aarch64Cpu.setattr "X0" result.

End Aarch64LinuxSyscallAbi.

(** ** [class Aarch64Operand] *)

Module Aarch64Operand.

Inductive arm64_op_type :=
| ARM64_OP_REG     (* Register operand *)
| ARM64_OP_MEM     (* Memory operand *)
| ARM64_OP_IMM     (* Immediate operand *)
| ARM64_OP_CIMM    (* C-Immediate *)
| ARM64_OP_FP.     (* Floating-Point operand *)

(** The decoder's operand descriptor [self.op], with the register named as
    [self.reg] names it. *)
Record cs_op := mkOp { type : arm64_op_type; reg : string; imm : Z }.

Definition read (op : cs_op) (nbits : option Z) (with_carry : bool)
  : Py registers Value :=
  py_assert (bool_decide (nbits = None)) nbits_is_None;;
  py_assert (negb with_carry) not_with_carry;;
  match type op with
  | ARM64_OP_REG => Aarch64RegisterFile.read (reg op)
  | ARM64_OP_IMM => mret (VInt (imm op))
  | _ => raise NotImplementedError
  end.

Definition write (op : cs_op) (value : Z) (nbits : option Z)
  : Py registers () :=
  py_assert (bool_decide (nbits = None)) nbits_is_None;;
  match type op with
  | ARM64_OP_REG => Aarch64RegisterFile.write (reg op) value
  | _ => raise NotImplementedError
  end.

End Aarch64Operand.

(** ** Definitions used in the statements *)

(** The [k]-th stack slot counted from [base]. *)
Definition stack_slot (base : Value) (k : nat) : Value :=
  Nat.iter k (λ b, Value_add b Aarch64CdeclAbi.word_bytes) base.

(** The first [n] argument locations when the stack pointer holds [base]:
    the argument registers, then the stack slots. *)
Definition arguments_upto (base : Value) (n : nat) : list location :=
  (RegLoc <$> take n Aarch64CdeclAbi.argument_registers)
  ++ ((λ k, StackLoc (stack_slot base k)) <$> seq 0 (n - 8)).

(** The number of nodes of an expression. *)
Fixpoint BitVec_nodes (e : BitVec) : nat :=
  match e with
  | BitVecVariable _ _ | BitVecConstant _ _ => 1
  | BitVecAdd a b => S (BitVec_nodes a + BitVec_nodes b)
  | BitVecExtract e _ _ => S (BitVec_nodes e)
  end.

(** The parent of an entry is a key of the table, is its own parent there,
    and is at least as wide as the entry. *)
Definition spec_closed (spec : Regspec) : bool :=
  match _table !! parent spec with
  | Some pspec =>
      bool_decide (parent pspec = parent spec)
      && (0 <? size spec) && (size spec <=? size pspec)
  | None => false
  end.

(** An alias is not a key of the table; it names a 64-bit parent. *)
Definition alias_closed (a target : string) : bool :=
  bool_decide (_table !! a = None)
  && match _table !! target with
     | Some spec => bool_decide (parent spec = target) && (size spec =? 64)
     | None => false
     end.

(** Every parent of the table has a cell of its declared width; [init]
    satisfies it and [write] preserves it. *)
Definition wf (rf : registers) : Prop :=
  ∀ name spec, _table !! name = Some spec → parent spec = name →
    ∃ cell, rf !! name = Some cell ∧ width cell = size spec.

(** The register file after a sequence of [write] calls, each of which
    may return or raise. *)
Definition after_writes (rf : registers) (ws : list (string * Z)) : registers :=
  foldl (λ rf w, snd (write w.1 w.2 rf)) rf ws.

(** * Properties *)

(** ** Sample runs *)

Example read_init_X0 : fst (read "X0" init) = Returns (VInt 0).
Proof. vm_compute. reflexivity. Qed.

Example read_init_STACK : fst (read "STACK" init) = Returns (VInt 0).
Proof. vm_compute. reflexivity. Qed.

Example write_W0_read_X0 :
  fst (read "X0" (snd (write "W0" 1 (snd (write "X0" (2 ^ 64 - 1) init)))))
  = Returns (VInt 1).
Proof. vm_compute. reflexivity. Qed.

(** ** Facts about the table and the alias layer *)

Lemma table_closed : map_Forall (λ _ spec, spec_closed spec = true) _table.
Proof. apply (bool_decide_unpack _). vm_compute. exact I. Qed.

Lemma aliases_closed : map_Forall (λ a t, alias_closed a t = true) _aliases.
Proof. apply (bool_decide_unpack _). vm_compute. exact I. Qed.

#[local] Opaque _table _aliases.

Lemma table_parent name spec :
  _table !! name = Some spec →
  ∃ pspec, _table !! parent spec = Some pspec
           ∧ parent pspec = parent spec ∧ 0 < size spec ≤ size pspec.
Proof.
  intros Hn. pose proof (table_closed name spec Hn) as Hc.
  unfold spec_closed in Hc. destruct (_table !! parent spec) as [pspec|]; [|done].
  exists pspec. apply andb_prop in Hc as [Hc Hle]. apply andb_prop in Hc as [Hp Hpos].
  apply bool_decide_eq_true in Hp. repeat split; [done..|lia|lia].
Qed.

Lemma alias_target a target :
  _aliases !! a = Some target →
  _table !! a = None
  ∧ ∃ spec, _table !! target = Some spec ∧ parent spec = target ∧ size spec = 64.
Proof.
  intros Ha. pose proof (aliases_closed a target Ha) as Hc.
  unfold alias_closed in Hc. apply andb_prop in Hc as [Hn Hc].
  apply bool_decide_eq_true in Hn. split; [done|].
  destruct (_table !! target) as [spec|]; [|done].
  apply andb_prop in Hc as [Hp Hs]. apply bool_decide_eq_true in Hp.
  exists spec. split; [done|]. split; [done|lia].
Qed.

Lemma alias_of_table name spec : _table !! name = Some spec → _alias name = name.
Proof.
  intros Hn. unfold _alias. destruct (_aliases !! name) as [t|] eqn:Ha; [|done].
  apply alias_target in Ha as [Hnone _]. congruence.
Qed.

Lemma contains_resolved register spec :
  _table !! _alias register = Some spec → contains register = true.
Proof.
  unfold contains, _alias. intros Hs.
  destruct (_aliases !! register) as [t|] eqn:Ha; simpl in Hs.
  - rewrite bool_decide_eq_true_2; [done|]. by exists t.
  - rewrite (bool_decide_eq_true_2 (is_Some (_table !! register))).
    + apply orb_true_r.
    + by exists spec.
Qed.

Lemma contains_unknown register :
  _aliases !! register = None → _table !! register = None →
  contains register = false.
Proof.
  intros Ha Ht. unfold contains. rewrite Ha, Ht.
  rewrite !bool_decide_eq_false_2; [done| |]; by intros [? ?].
Qed.

(** ** Bounded extraction *)

Lemma EXTRACT_low z size :
  0 ≤ size → EXTRACT (VInt z) 0 size = VInt (z `mod` 2 ^ size).
Proof.
  intros Hs. simpl. rewrite Z.shiftr_0_r, <- Z.land_ones by done.
  unfold Z.ones. by rewrite Z.sub_1_r.
Qed.

Lemma EXTRACT_fits z size :
  0 ≤ size → 0 ≤ z < 2 ^ size → EXTRACT (VInt z) 0 size = VInt z.
Proof. intros Hs Hz. rewrite EXTRACT_low by done. f_equal. by apply Z.mod_small. Qed.

Lemma EXTRACT_eval ρ v size :
  0 ≤ size →
  Value_eval ρ (EXTRACT v 0 size) = Value_eval ρ v `mod` 2 ^ size.
Proof.
  intros Hs. destruct v as [z|e].
  - by rewrite EXTRACT_low.
  - simpl. rewrite Z.shiftr_0_r, <- Z.land_ones by done.
    unfold Z.ones. by rewrite Z.sub_1_r.
Qed.

(** ** Well-formed register caches *)

Lemma wf_init : wf init.
Proof.
  intros name spec Hn Hp. exists (Register_new (size spec)). split; [|done].
  unfold init. rewrite map_lookup_imap, Hn. simpl. unfold init_cell.
  rewrite decide_False; [done|]. intros Hne. by apply Hne.
Qed.

Lemma wf_parent rf name spec :
  wf rf → _table !! name = Some spec →
  ∃ pspec cell, _table !! parent spec = Some pspec ∧ parent pspec = parent spec
                ∧ 0 < size spec ≤ size pspec
                ∧ rf !! parent spec = Some cell ∧ width cell = size pspec.
Proof.
  intros Hwf Hn. destruct (table_parent _ _ Hn) as (pspec & Hp & Hpp & Hsz).
  destruct (Hwf _ _ Hp Hpp) as (cell & Hc & Hw).
  exists pspec, cell. exact (conj Hp (conj Hpp (conj Hsz (conj Hc Hw)))).
Qed.

(** ** Running the monad *)

Section run.
Context {S : Type}.

Lemma bind_Returns {A B} (m : Py S A) (f : A → Py S B) s a s' :
  m s = (Returns a, s') → (m ≫= f) s = f a s'.
Proof. intros H. unfold mbind, Py_bind. by rewrite H. Qed.

Lemma bind_Raises {A B} (m : Py S A) (f : A → Py S B) s e s' :
  m s = (Raises e, s') → (m ≫= f) s = (Raises e, s').
Proof. intros H. unfold mbind, Py_bind. by rewrite H. Qed.

Lemma py_assert_true a (s : S) : py_assert true a s = (Returns (), s).
Proof. done. Qed.

Lemma py_assert_false a (s : S) :
  py_assert false a s = (Raises (AssertionError a), s).
Proof. done. Qed.

Lemma getitem_Some {V} (d : gmap string V) key v (s : S) :
  d !! key = Some v → getitem d key s = (Returns v, s).
Proof. intros H. unfold getitem. by rewrite H. Qed.

Lemma getitem_None {V} (d : gmap string V) key (s : S) :
  d !! key = None → getitem (S:=S) d key s = (Raises (KeyError key), s).
Proof. intros H. unfold getitem. by rewrite H. Qed.
End run.

(** ** What [read] and [write] compute *)

Lemma read_eq rf register spec pspec cell :
  _table !! _alias register = Some spec →
  _table !! parent spec = Some pspec →
  rf !! parent spec = Some cell →
  read register rf =
    (Returns (if decide (_alias register ≠ parent spec)
              then if size spec <? size pspec
                   then EXTRACT (value cell) 0 (size spec) else value cell
              else value cell), rf).
Proof.
  intros Hs Hp Hc. unfold read.
  rewrite (contains_resolved _ _ Hs).
  erewrite bind_Returns by apply py_assert_true.
  erewrite bind_Returns by (by apply getitem_Some).
  erewrite bind_Returns by done.
  erewrite bind_Returns by (by apply getitem_Some).
  destruct (decide (_alias register ≠ parent spec)); [|done].
  erewrite bind_Returns by (by apply getitem_Some).
  by destruct (size spec <? size pspec).
Qed.

Lemma read_unknown rf register :
  contains register = false →
  read register rf = (Raises InvalidRegisterError, rf).
Proof.
  intros Hc. unfold read. rewrite Hc.
  by erewrite bind_Raises by apply py_assert_false.
Qed.

Lemma write_eq rf register spec cell v :
  _table !! _alias register = Some spec →
  v ≤ 2 ^ size spec - 1 →
  rf !! parent spec = Some cell →
  write register v rf =
    (Returns (), <[parent spec := Register_write cell v]> rf).
Proof.
  intros Hs Hv Hc. unfold write.
  rewrite (contains_resolved _ _ Hs).
  erewrite bind_Returns by apply py_assert_true.
  erewrite bind_Returns by (by apply getitem_Some).
  rewrite (proj2 (Z.leb_le _ _) Hv).
  erewrite bind_Returns by apply py_assert_true.
  erewrite bind_Returns by done.
  by erewrite bind_Returns by (by apply getitem_Some).
Qed.

Lemma write_too_large rf register spec v :
  _table !! _alias register = Some spec →
  2 ^ size spec ≤ v →
  write register v rf = (Raises ValueOutOfRangeError, rf).
Proof.
  intros Hs Hv. unfold write.
  rewrite (contains_resolved _ _ Hs).
  erewrite bind_Returns by apply py_assert_true.
  erewrite bind_Returns by (by apply getitem_Some).
  rewrite (proj2 (Z.leb_gt _ _)) by lia.
  by erewrite bind_Raises by apply py_assert_false.
Qed.

Lemma write_unknown rf register v :
  contains register = false →
  write register v rf = (Raises InvalidRegisterError, rf).
Proof.
  intros Hc. unfold write. rewrite Hc.
  by erewrite bind_Raises by apply py_assert_false.
Qed.

(** A write changes at most the cell of the parent, and keeps its width. *)
Lemma write_state rf register v :
  snd (write register v rf) = rf
  ∨ ∃ spec cell, _table !! _alias register = Some spec
                 ∧ rf !! parent spec = Some cell
                 ∧ snd (write register v rf)
                   = <[parent spec := Register_write cell v]> rf.
Proof.
  destruct (contains register) eqn:Hin;
    [|left; by rewrite write_unknown].
  destruct (_table !! _alias register) as [spec|] eqn:Hs.
  2:{ left. unfold write. rewrite Hin.
      erewrite bind_Returns by apply py_assert_true.
      by erewrite bind_Raises by (by apply getitem_None). }
  destruct (Z_le_gt_dec (2 ^ size spec) v) as [Hv|Hv];
    [left; by erewrite write_too_large|].
  destruct (rf !! parent spec) as [cell|] eqn:Hc.
  - right. exists spec, cell. split; [reflexivity|]. split; [exact Hc|].
    rewrite (write_eq rf register spec cell v Hs); [reflexivity|lia|exact Hc].
  - left. unfold write. rewrite Hin.
    erewrite bind_Returns by apply py_assert_true.
    erewrite bind_Returns by (by apply getitem_Some).
    rewrite (proj2 (Z.leb_le _ _)) by lia.
    erewrite bind_Returns by apply py_assert_true.
    erewrite bind_Returns by done.
    by erewrite bind_Raises by (by apply getitem_None).
Qed.

Lemma wf_write rf register v : wf rf → wf (snd (write register v rf)).
Proof.
  intros Hwf.
  destruct (write_state rf register v) as [->|(spec & cell & _ & Hc & ->)];
    [done|].
  intros name nspec Hn Hp. destruct (Hwf _ _ Hn Hp) as (c & Hl & Hw).
  destruct (decide (parent spec = name)) as [Heq|Hne].
  - rewrite <- Heq in Hl |- *. rewrite lookup_insert_eq.
    eexists; split; [done|]. simpl. congruence.
  - rewrite lookup_insert_ne by exact Hne. exists c. exact (conj Hl Hw).
Qed.

Lemma contains_resolves register :
  contains register = true → ∃ spec, _table !! _alias register = Some spec.
Proof.
  unfold contains, _alias. intros Hin.
  destruct (_aliases !! register) as [t|] eqn:Ha; simpl.
  - apply alias_target in Ha as (_ & spec & Hs & _). by exists spec.
  - apply orb_prop in Hin as [Hin|Hin]; apply bool_decide_eq_true in Hin;
      destruct Hin as [x Hx]; [discriminate|by exists x].
Qed.

(** A name narrower than its parent is not the parent. *)
Lemma narrow_not_parent name spec pspec :
  _table !! name = Some spec → _table !! parent spec = Some pspec →
  size spec < size pspec → name ≠ parent spec.
Proof. intros Hs Hp Hlt ->. rewrite Hs in Hp. injection Hp as <-. lia. Qed.

Lemma read_parent rf P w cell :
  _table !! P = Some (mkRegspec P w) → rf !! P = Some cell →
  read P rf = (Returns (value cell), rf).
Proof.
  intros HP Hc. pose proof (alias_of_table _ _ HP) as Ha.
  rewrite (read_eq rf P (mkRegspec P w) (mkRegspec P w) cell);
    rewrite ?Ha; simpl; try assumption.
  destruct (decide (P ≠ P)) as [Hne|_]; [by destruct Hne|reflexivity].
Qed.

Lemma read_narrow rf name spec pspec cell :
  _table !! _alias name = Some spec → _table !! parent spec = Some pspec →
  size spec < size pspec → rf !! parent spec = Some cell →
  read name rf = (Returns (EXTRACT (value cell) 0 (size spec)), rf).
Proof.
  intros Hs Hp Hlt Hc. rewrite (read_eq rf name spec pspec cell Hs Hp Hc).
  rewrite decide_True by (by eapply narrow_not_parent).
  by rewrite (proj2 (Z.ltb_lt _ _) Hlt).
Qed.

(** Writing an in-range value through any name of a parent [P] of width
    [pw] leaves exactly that value in the cell of [P]. *)
Lemma write_fits rf name P w pw v :
  wf rf → _table !! name = Some (mkRegspec P w) →
  _table !! P = Some (mkRegspec P pw) → 0 ≤ v < 2 ^ w →
  write name v rf = (Returns (), <[P := mkRegister pw (VInt v)]> rf).
Proof.
  intros Hwf Hn HP Hv.
  destruct (wf_parent rf name _ Hwf Hn) as (pspec & cell & Hp & _ & Hsz & Hc & Hw).
  simpl in *. rewrite HP in Hp. injection Hp as <-. simpl in *.
  pose proof (alias_of_table _ _ Hn) as Ha.
  rewrite (write_eq rf name (mkRegspec P w) cell v);
    rewrite ?Ha; simpl; [|assumption|lia|assumption].
  unfold Register_write. rewrite Hw, EXTRACT_fits; [reflexivity|lia|].
  split; [lia|]. eapply Z.lt_le_trans; [apply Hv|].
  apply Z.pow_le_mono_r; lia.
Qed.

Lemma table_XZR : _table !! "XZR" = Some (mkRegspec "XZR" 64).
Proof. vm_compute. reflexivity. Qed.

Lemma table_WZR : _table !! "WZR" = Some (mkRegspec "XZR" 32).
Proof. vm_compute. reflexivity. Qed.

(** ** The register file: the claims *)

(** C1: for a narrow alias [W] of a parent [P] ([width W < width P]) and a
    value [0 ≤ v < 2^width W], [write W v] replaces the whole stored value
    of the cell of [P] by [v], whatever the cell held before, so that
    [read P] then returns exactly [v], whose bits at and above [width W]
    are zero. *)
Theorem write_narrow_replaces_parent (rf : registers) (W P : string) (w pw v : Z) :
  wf rf →
  _table !! W = Some (mkRegspec P w) → _table !! P = Some (mkRegspec P pw) →
  w < pw → 0 ≤ v < 2 ^ w →
  let rf' := <[P := mkRegister pw (VInt v)]> rf in
  write W v rf = (Returns (), rf')
  ∧ read P rf' = (Returns (VInt v), rf')
  ∧ ∀ i, w ≤ i → Z.testbit v i = false.
Proof.
  intros Hwf HW HP Hlt Hv rf'. split; [|split].
  - by apply (write_fits rf W P w pw v).
  - apply (read_parent rf' P pw (mkRegister pw (VInt v)) HP).
    apply lookup_insert_eq.
  - intros i Hi. destruct (table_parent _ _ HW) as (ps & _ & _ & Hw). simpl in Hw.
    rewrite <- (Z.mod_small v (2 ^ w)) by lia.
    apply Z.mod_pow2_bits_high. lia.
Qed.

Lemma write_narrow_replaces_parent_witness :
  write "W0" 1 init = (Returns (), <["X0" := mkRegister 64 (VInt 1)]> init)
  ∧ read "X0" (<["X0" := mkRegister 64 (VInt 1)]> init)
    = (Returns (VInt 1), <["X0" := mkRegister 64 (VInt 1)]> init)
  ∧ ∀ i, 32 ≤ i → Z.testbit 1 i = false.
Proof.
  apply (write_narrow_replaces_parent init "W0" "X0" 32 64 1);
    [apply wf_init | vm_compute; reflexivity | vm_compute; reflexivity
    | lia | lia].
Defined.

(** C2: for every top-level register [R] (its own parent in the table) and
    every [0 ≤ v < 2^width R], [write R v] followed by [read R] returns
    [v]. *)
Theorem write_read_roundtrip (rf : registers) (R : string) (w v : Z) :
  wf rf → _table !! R = Some (mkRegspec R w) → 0 ≤ v < 2 ^ w →
  ∃ rf', write R v rf = (Returns (), rf')
         ∧ read R rf' = (Returns (VInt v), rf').
Proof.
  intros Hwf HR Hv. exists (<[R := mkRegister w (VInt v)]> rf). split.
  - by apply (write_fits rf R R w w v).
  - apply (read_parent _ R w (mkRegister w (VInt v)) HR).
    apply lookup_insert_eq.
Qed.

Lemma write_read_roundtrip_witness :
  ∃ rf', write "Q0" (2 ^ 128 - 1) init = (Returns (), rf')
         ∧ read "Q0" rf' = (Returns (VInt (2 ^ 128 - 1)), rf').
Proof.
  apply (write_read_roundtrip init "Q0" 128 (2 ^ 128 - 1));
    [apply wf_init | vm_compute; reflexivity | lia].
Defined.

(** C3: for every name whose resolved width is strictly less than the
    declared width of its parent, [read] returns the low [width] bits of the
    value stored in the cell of the parent, by the same extraction for a
    concrete stored value (a bitmask) and for a symbolic one (an extraction
    expression, which denotes the low bits under every assignment); and
    after [write P 0xFFFFFFFF00000001] on a 64-bit parent [P], [read W] of a
    32-bit alias [W] of [P] returns [1]. *)
Theorem read_narrow_low_bits (rf : registers) :
  wf rf →
  (∀ name spec pspec,
     _table !! _alias name = Some spec →
     _table !! parent spec = Some pspec →
     size spec < size pspec →
     ∃ cell, rf !! parent spec = Some cell
       ∧ read name rf = (Returns (EXTRACT (value cell) 0 (size spec)), rf)
       ∧ (∀ z, value cell = VInt z →
            EXTRACT (value cell) 0 (size spec) = VInt (z `mod` 2 ^ size spec))
       ∧ (∀ e, value cell = VSym e →
            EXTRACT (value cell) 0 (size spec)
            = VSym (BitVecExtract e 0 (size spec)))
       ∧ (∀ ρ, Value_eval ρ (EXTRACT (value cell) 0 (size spec))
               = Value_eval ρ (value cell) `mod` 2 ^ size spec))
  ∧ (∀ W P,
       _table !! W = Some (mkRegspec P 32) →
       _table !! P = Some (mkRegspec P 64) →
       ∃ rf', write P 0xFFFFFFFF00000001 rf = (Returns (), rf')
              ∧ read W rf' = (Returns (VInt 0x00000001), rf')).
Proof.
  intros Hwf. split.
  - intros name spec pspec Hs Hp Hlt.
    destruct (wf_parent rf _ _ Hwf Hs) as (pspec' & cell & _ & _ & Hsz & Hc & _).
    exists cell. split; [exact Hc|]. split; [by eapply read_narrow|].
    split; [|split].
    + intros z ->. apply EXTRACT_low. lia.
    + by intros e ->.
    + intros ρ. apply EXTRACT_eval. lia.
  - intros W P HW HP.
    exists (<[P := mkRegister 64 (VInt 0xFFFFFFFF00000001)]> rf). split.
    + apply (write_fits rf P P 64 64); [done..|lia].
    + pose proof (alias_of_table _ _ HW) as Ha.
      rewrite (read_narrow _ W (mkRegspec P 32) (mkRegspec P 64)
                 (mkRegister 64 (VInt 0xFFFFFFFF00000001)));
        rewrite ?Ha; simpl; [reflexivity|assumption..|lia|].
      apply lookup_insert_eq.
Qed.

Lemma read_narrow_low_bits_witness :
  (∃ cell, init !! "Q0" = Some cell
     ∧ read "H0" init = (Returns (EXTRACT (value cell) 0 16), init))
  ∧ (∃ rf', write "SP" 0xFFFFFFFF00000001 init = (Returns (), rf')
            ∧ read "WSP" rf' = (Returns (VInt 1), rf')).
Proof.
  destruct (read_narrow_low_bits init wf_init) as [Hgen Hpart]. split.
  - destruct (Hgen "H0" (mkRegspec "Q0" 16) (mkRegspec "Q0" 128))
      as (cell & Hc & Hr & _);
      [vm_compute; reflexivity | vm_compute; reflexivity | simpl; lia |].
    exists cell. exact (conj Hc Hr).
  - apply (Hpart "WSP" "SP"); vm_compute; reflexivity.
Defined.

(** The claim C4 as stated fails: a negative value is outside
    [0 ≤ v < 2^64], yet [write "X0" (-1)] passes the assertion, returns and
    changes the cell of [X0]. *)
Lemma write_negative_not_rejected :
  contains "X0" = true
  ∧ _table !! _alias "X0" = Some (mkRegspec "X0" 64)
  ∧ ¬ (0 ≤ -1 < 2 ^ 64)
  ∧ fst (write "X0" (-1) init) = Returns ()
  ∧ fst (read "X0" init) = Returns (VInt 0)
  ∧ fst (read "X0" (snd (write "X0" (-1) init))) = Returns (VInt (2 ^ 64 - 1)).
Proof.
  split; [vm_compute; reflexivity|]. split; [vm_compute; reflexivity|].
  split; [lia|]. repeat split; vm_compute; reflexivity.
Qed.

(** C4, amended: for every recognized register name [R], [write R v] with
    [v ≥ 2^width R] fails with [ValueOutOfRangeError] and leaves every
    register cell as it was; in particular [write R (2^width R)] fails. *)
Theorem write_above_range_rejected (rf : registers) (R : string) :
  contains R = true →
  ∃ spec, _table !! _alias R = Some spec
    ∧ (∀ v, 2 ^ size spec ≤ v →
         write R v rf = (Raises ValueOutOfRangeError, rf))
    ∧ write R (2 ^ size spec) rf = (Raises ValueOutOfRangeError, rf).
Proof.
  intros Hin. destruct (contains_resolves R Hin) as [spec Hs].
  exists spec. split; [exact Hs|]. split.
  - intros v Hv. by apply (write_too_large rf R spec v).
  - apply (write_too_large rf R spec); [exact Hs|lia].
Qed.

Lemma write_above_range_rejected_witness :
  ∃ spec, _table !! _alias "LR" = Some spec
    ∧ (∀ v, 2 ^ size spec ≤ v →
         write "LR" v init = (Raises ValueOutOfRangeError, init))
    ∧ write "LR" (2 ^ size spec) init = (Raises ValueOutOfRangeError, init).
Proof.
  apply (write_above_range_rejected init "LR"). vm_compute. reflexivity.
Defined.

(** C5: for every name that is a key neither of the table nor of the alias
    layer, [read] and [write] (with [0] or any other value) fail with
    [InvalidRegisterError] and leave the register file unchanged. *)
Theorem unknown_register_rejected (rf : registers) (name : string) :
  _aliases !! name = None → _table !! name = None →
  read name rf = (Raises InvalidRegisterError, rf)
  ∧ write name 0 rf = (Raises InvalidRegisterError, rf)
  ∧ ∀ v, write name v rf = (Raises InvalidRegisterError, rf).
Proof.
  intros Ha Ht. pose proof (contains_unknown name Ha Ht) as Hc.
  split; [by apply read_unknown|]. split; [by apply write_unknown|].
  intros v. by apply write_unknown.
Qed.

Lemma unknown_register_rejected_witness :
  read "NOPE" init = (Raises InvalidRegisterError, init)
  ∧ write "NOPE" 0 init = (Raises InvalidRegisterError, init)
  ∧ ∀ v, write "NOPE" v init = (Raises InvalidRegisterError, init).
Proof.
  apply (unknown_register_rejected init "NOPE"); vm_compute; reflexivity.
Defined.

(** C10: the zero register is an ordinary cell: for [0 ≤ v < 2^64],
    [write "XZR" v] stores [v] in the cell of [XZR], a following
    [read "XZR"] returns [v] (not [0]) and [read "WZR"] returns the low 32
    bits of [v]. *)
Theorem zero_register_is_storage (rf : registers) (v : Z) :
  wf rf → 0 ≤ v < 2 ^ 64 →
  ∃ rf', write "XZR" v rf = (Returns (), rf')
    ∧ rf' !! "XZR" = Some (mkRegister 64 (VInt v))
    ∧ read "XZR" rf' = (Returns (VInt v), rf')
    ∧ read "WZR" rf' = (Returns (VInt (v `mod` 2 ^ 32)), rf').
Proof.
  intros Hwf Hv. exists (<["XZR" := mkRegister 64 (VInt v)]> rf).
  split; [|split; [|split]].
  - apply (write_fits rf "XZR" "XZR" 64 64 v Hwf table_XZR table_XZR Hv).
  - apply lookup_insert_eq.
  - apply (read_parent _ "XZR" 64 (mkRegister 64 (VInt v)) table_XZR).
    apply lookup_insert_eq.
  - pose proof (alias_of_table _ _ table_WZR) as Ha.
    rewrite (read_narrow _ "WZR" (mkRegspec "XZR" 32) (mkRegspec "XZR" 64)
               (mkRegister 64 (VInt v)));
      rewrite ?Ha; simpl value; simpl size; simpl parent.
    + by rewrite EXTRACT_low.
    + exact table_WZR.
    + exact table_XZR.
    + lia.
    + apply lookup_insert_eq.
Qed.

Lemma zero_register_is_storage_witness :
  ∃ rf', write "XZR" 0x1200000034 init = (Returns (), rf')
    ∧ rf' !! "XZR" = Some (mkRegister 64 (VInt 0x1200000034))
    ∧ read "XZR" rf' = (Returns (VInt 0x1200000034), rf')
    ∧ read "WZR" rf' = (Returns (VInt (0x1200000034 `mod` 2 ^ 32)), rf').
Proof.
  apply (zero_register_is_storage init 0x1200000034); [apply wf_init | lia].
Defined.

(** ** Mnemonic canonicalization *)

Section canonicalize.
Import Aarch64Cpu.

Lemma upper_char_idem c : upper_char (upper_char c) = upper_char c.
Proof. destruct c as [[] [] [] [] [] [] [] []]; reflexivity. Qed.

Lemma upper_idem s : upper (upper s) = upper s.
Proof.
  induction s as [|c s IH]; [reflexivity|].
  simpl. by rewrite upper_char_idem, IH.
Qed.

Lemma mapped_name name : default name (INSTRUCTION_MAPPINGS !! name) = name.
Proof. unfold INSTRUCTION_MAPPINGS. by rewrite lookup_empty. Qed.

(** Away from [MOV] the canonical name is the upper-cased name. *)
Lemma canonicalize_other instr :
  upper (insn_name instr) ≠ "MOV" →
  canonicalize_instruction_name instr = upper (insn_name instr).
Proof.
  intros Hne. unfold canonicalize_instruction_name.
  rewrite decide_False by exact Hne. apply mapped_name.
Qed.

Lemma canonicalize_MOV instr :
  upper (insn_name instr) = "MOV" →
  canonicalize_instruction_name instr =
    if startswith (mnemonic instr) "lsr" then "LSR"
    else if startswith (mnemonic instr) "lsl" then "LSL"
    else if startswith (mnemonic instr) "asr" then "ASR"
    else "MOV".
Proof.
  intros He. unfold canonicalize_instruction_name.
  rewrite decide_True by exact He. by rewrite mapped_name, He.
Qed.

Lemma startswith_app s prefix :
  startswith s prefix = true → ∃ rest, s = prefix +:+ rest.
Proof.
  revert s. induction prefix as [|a prefix IH]; intros s Hs.
  - by exists s.
  - destruct s as [|b s]; [discriminate|]. simpl in Hs.
    apply andb_prop in Hs as [Hab Hs]. apply Ascii.eqb_eq in Hab as ->.
    destruct (IH s Hs) as [rest ->]. by exists rest.
Qed.

(** The three hints exclude one another. *)
Lemma startswith_lsl_not_lsr m :
  startswith m "lsl" = true → startswith m "lsr" = false.
Proof. intros [rest ->]%startswith_app. reflexivity. Qed.

Lemma startswith_asr_not_ls m :
  startswith m "asr" = true →
  startswith m "lsr" = false ∧ startswith m "lsl" = false.
Proof. intros [rest ->]%startswith_app. split; reflexivity. Qed.

(** Canonicalizing the instruction again under its canonical name. *)
Lemma canonicalize_renamed instr :
  canonicalize_instruction_name
    (mkCsInsn (canonicalize_instruction_name instr) (mnemonic instr))
  = canonicalize_instruction_name instr.
Proof.
  destruct (decide (upper (insn_name instr) = "MOV")) as [He|Hne].
  - pose proof (canonicalize_MOV instr He) as Hc.
    destruct (startswith (mnemonic instr) "lsr") eqn:Hlsr;
      [|destruct (startswith (mnemonic instr) "lsl") eqn:Hlsl;
        [|destruct (startswith (mnemonic instr) "asr") eqn:Hasr]].
    1-3: rewrite canonicalize_other; simpl; rewrite Hc; [reflexivity|done].
    rewrite canonicalize_MOV; simpl; rewrite Hc; [|reflexivity].
    by rewrite Hlsr, Hlsl, Hasr.
  - pose proof (canonicalize_other instr Hne) as Hc.
    rewrite canonicalize_other; simpl; rewrite Hc.
    + apply upper_idem.
    + by rewrite upper_idem.
Qed.
End canonicalize.

(** C6: canonicalization is a function of the decoded instruction and is
    idempotent: canonicalizing the instruction again under its canonical
    name returns that name unchanged, and, when the canonical name is not
    [MOV], does so whatever the mnemonic text; an instruction reported as
    [MOV] whose mnemonic text starts with [lsr], [lsl] or [asr] resolves to
    [LSR], [LSL] or [ASR] respectively. *)
Theorem canonicalize_idempotent (instr : Aarch64Cpu.CsInsn) :
  let canonicalize := Aarch64Cpu.canonicalize_instruction_name in
  let name := canonicalize instr in
  canonicalize (Aarch64Cpu.mkCsInsn name (Aarch64Cpu.mnemonic instr)) = name
  ∧ (name ≠ "MOV" → ∀ text, canonicalize (Aarch64Cpu.mkCsInsn name text) = name)
  ∧ (Aarch64Cpu.upper (Aarch64Cpu.insn_name instr) = "MOV" →
     (Aarch64Cpu.startswith (Aarch64Cpu.mnemonic instr) "lsr" = true →
      name = "LSR")
     ∧ (Aarch64Cpu.startswith (Aarch64Cpu.mnemonic instr) "lsl" = true →
        name = "LSL")
     ∧ (Aarch64Cpu.startswith (Aarch64Cpu.mnemonic instr) "asr" = true →
        name = "ASR")).
Proof.
  intros canonicalize name. split; [|split].
  - apply canonicalize_renamed.
  - intros Hne text. subst canonicalize name.
    assert (Aarch64Cpu.upper (Aarch64Cpu.canonicalize_instruction_name instr)
            = Aarch64Cpu.canonicalize_instruction_name instr) as Hup.
    { destruct (decide (Aarch64Cpu.upper (Aarch64Cpu.insn_name instr) = "MOV"))
        as [He|Hn].
      - rewrite (canonicalize_MOV instr He).
        repeat case_match; reflexivity.
      - rewrite (canonicalize_other instr Hn). apply upper_idem. }
    rewrite canonicalize_other; simpl; rewrite Hup; [reflexivity|exact Hne].
  - intros He. subst canonicalize name. rewrite (canonicalize_MOV instr He).
    split; [|split]; intros Hs.
    + by rewrite Hs.
    + by rewrite (startswith_lsl_not_lsr _ Hs), Hs.
    + destruct (startswith_asr_not_ls _ Hs) as [-> ->]. by rewrite Hs.
Qed.

Lemma canonicalize_idempotent_witness :
  Aarch64Cpu.canonicalize_instruction_name (Aarch64Cpu.mkCsInsn "mov" "lsl") = "LSL"
  ∧ Aarch64Cpu.canonicalize_instruction_name (Aarch64Cpu.mkCsInsn "LSL" "lsl") = "LSL".
Proof.
  destruct (canonicalize_idempotent (Aarch64Cpu.mkCsInsn "mov" "lsl"))
    as (Hidem & _ & Hmov).
  destruct Hmov as (_ & Hlsl & _); [reflexivity|].
  cbv zeta in Hidem. rewrite (Hlsl eq_refl) in Hidem.
  split; [exact (Hlsl eq_refl)|exact Hidem].
Defined.

(** ** The calling-convention ABI *)

Lemma consume_S {G A} (next : G → Py registers (option (A * G))) n g :
  consume next (S n) g
  = (r ← next g;
     match r with
     | None => mret []
     | Some (x, g') => xs ← consume next n g'; mret (x :: xs)
     end).
Proof. reflexivity. Qed.

Section cdecl.
Import Aarch64CdeclAbi.

Lemma table_STACK : _table !! _alias "STACK" = Some (mkRegspec "SP" 64).
Proof. vm_compute. reflexivity. Qed.

Lemma STACK_eq (rf : registers) cell :
  rf !! "SP" = Some cell → Aarch64Cpu.STACK rf = (Returns (value cell), rf).
Proof.
  intros Hc. unfold Aarch64Cpu.STACK.
  rewrite (read_eq rf "STACK" _ (mkRegspec "SP" 64) cell table_STACK);
    [|vm_compute; reflexivity|exact Hc].
  rewrite decide_False; [reflexivity|]. intros Hne. apply Hne.
  vm_compute. reflexivity.
Qed.

Lemma next_register (rf : registers) i reg :
  argument_registers !! i = Some reg →
  next (in_registers i) rf = (Returns (Some (RegLoc reg, in_registers (S i))), rf).
Proof. intros Hi. unfold next. by rewrite Hi. Qed.

Lemma next_first_slot (rf : registers) i cell :
  argument_registers !! i = None → rf !! "SP" = Some cell →
  next (in_registers i) rf
  = (Returns (Some (values_from_next (value cell))), rf).
Proof.
  intros Hi Hc. unfold next. rewrite Hi.
  by erewrite bind_Returns by (by apply STACK_eq).
Qed.

Lemma stack_slot_shift base k :
  stack_slot (Value_add base word_bytes) k
  = Value_add (stack_slot base k) word_bytes.
Proof.
  unfold stack_slot. induction k as [|k IH]; [reflexivity|].
  simpl. by rewrite IH.
Qed.

Lemma stack_slot_concrete sp (k : nat) :
  stack_slot (VInt sp) k = VInt (sp + 8 * Z.of_nat k).
Proof.
  unfold stack_slot. induction k as [|k IH]; simpl.
  - f_equal. lia.
  - rewrite IH. simpl. f_equal. unfold word_bytes, Aarch64Cpu.address_bit_size.
    change (64 `div` 8) with 8. lia.
Qed.

Lemma consume_values_from (rf : registers) n base :
  consume next n (in_values_from base) rf
  = (Returns ((λ k, StackLoc (stack_slot base k)) <$> seq 0 n), rf).
Proof.
  revert base. induction n as [|n IH]; intros base; [reflexivity|].
  rewrite consume_S. erewrite bind_Returns by reflexivity.
  unfold values_from_next.
  erewrite bind_Returns by apply IH.
  unfold mret, Py_ret. do 2 f_equal. simpl. f_equal.
  rewrite <- fmap_S_seq, <- list_fmap_compose. apply list_fmap_ext.
  intros _ k _. simpl. by rewrite stack_slot_shift.
Qed.

Lemma consume_registers (rf : registers) cell n i :
  rf !! "SP" = Some cell →
  consume next n (in_registers i) rf
  = (Returns ((RegLoc <$> take n (drop i argument_registers))
              ++ ((λ k, StackLoc (stack_slot (value cell) k))
                    <$> seq 0 (n - (8 - i)))), rf).
Proof.
  intros Hc. revert i. induction n as [|n IH]; intros i; [reflexivity|].
  rewrite consume_S. destruct (argument_registers !! i) as [reg|] eqn:Hi.
  - erewrite bind_Returns by (by apply next_register). cbv beta iota.
    erewrite bind_Returns by apply IH.
    unfold mret, Py_ret. do 2 f_equal.
    rewrite (drop_S _ _ _ Hi). simpl. do 3 f_equal.
    apply lookup_lt_Some in Hi. simpl in Hi. f_equal. lia.
  - erewrite bind_Returns by (by apply next_first_slot).
    unfold values_from_next. cbv beta iota.
    erewrite bind_Returns by apply consume_values_from.
    unfold mret, Py_ret. do 2 f_equal.
    apply lookup_ge_None in Hi. simpl in Hi.
    rewrite drop_ge by (simpl; lia). rewrite take_nil. simpl.
    replace (S n - (8 - i))%nat with (S n) by lia. simpl. f_equal.
    rewrite <- fmap_S_seq, <- list_fmap_compose. apply list_fmap_ext.
    intros _ k _. simpl. by rewrite stack_slot_shift.
Qed.

(** On a symbolic stack pointer every further slot is a larger term. *)
Lemma stack_slot_symbolic e k :
  ∃ e', stack_slot (VSym e) k = VSym e'
        ∧ BitVec_nodes e' = (BitVec_nodes e + 2 * k)%nat.
Proof.
  unfold stack_slot. induction k as [|k (e' & IH & Hn)]; simpl.
  - exists e. split; [reflexivity|lia].
  - rewrite IH. simpl. eexists. split; [reflexivity|]. simpl. lia.
Qed.

Lemma stack_slot_inj base k1 k2 :
  stack_slot base k1 = stack_slot base k2 → k1 = k2.
Proof.
  destruct base as [sp|e]; intros Hk.
  - rewrite !stack_slot_concrete in Hk. injection Hk as Hk. lia.
  - destruct (stack_slot_symbolic e k1) as (e1 & H1 & Hn1).
    destruct (stack_slot_symbolic e k2) as (e2 & H2 & Hn2).
    rewrite H1, H2 in Hk. injection Hk as ->. lia.
Qed.

Lemma arguments_upto_NoDup base n : NoDup (arguments_upto base n).
Proof.
  unfold arguments_upto. apply NoDup_app. split; [|split].
  - apply NoDup_fmap_2; [by intros r1 r2 [= ->]|].
    eapply sublist_NoDup; [|apply sublist_take].
    unfold argument_registers. apply (bool_decide_unpack _). vm_compute. exact I.
  - intros x [r [-> _]]%list_elem_of_fmap [k [Hk _]]%list_elem_of_fmap.
    discriminate.
  - apply NoDup_fmap_2; [|apply NoDup_seq].
    intros k1 k2 [= Hk]. by apply stack_slot_inj in Hk.
Qed.

End cdecl.

(** C7: the generator of [Aarch64CdeclAbi.get_arguments] yields, request by
    request, first the eight registers [X0] .. [X7] in that order and then,
    from the value of the stack pointer at that moment, the successive
    stack slots, one per request: [SP], [SP + 8], [SP + 16], ... for a
    concrete stack pointer; no location is yielded twice. *)
Theorem cdecl_arguments_order (rf : registers) (cell : Register) (n : nat) :
  rf !! "SP" = Some cell →
  consume Aarch64CdeclAbi.next n Aarch64CdeclAbi.get_arguments rf
  = (Returns (arguments_upto (value cell) n), rf)
  ∧ arguments_upto (value cell) n
    = (RegLoc <$> take n ["X0"; "X1"; "X2"; "X3"; "X4"; "X5"; "X6"; "X7"])
      ++ ((λ k, StackLoc (stack_slot (value cell) k)) <$> seq 0 (n - 8))
  ∧ NoDup (arguments_upto (value cell) n)
  ∧ ∀ sp, value cell = VInt sp →
      (∀ k : nat, stack_slot (value cell) k = VInt (sp + 8 * Z.of_nat k))
      ∧ arguments_upto (value cell) 10
        = [RegLoc "X0"; RegLoc "X1"; RegLoc "X2"; RegLoc "X3"; RegLoc "X4";
           RegLoc "X5"; RegLoc "X6"; RegLoc "X7";
           StackLoc (VInt sp); StackLoc (VInt (sp + 8))].
Proof.
  intros Hc. split; [|split; [|split]].
  - unfold Aarch64CdeclAbi.get_arguments.
    rewrite (consume_registers rf cell n 0 Hc). unfold arguments_upto.
    by rewrite drop_0, Nat.sub_0_r.
  - reflexivity.
  - apply arguments_upto_NoDup.
  - intros sp ->. split.
    + intros k. apply stack_slot_concrete.
    + unfold arguments_upto. change (10 - 8)%nat with 2%nat.
      change (seq 0 2) with [0; 1]%nat. rewrite !fmap_cons, !fmap_nil.
      rewrite !stack_slot_concrete. simpl take. simpl app.
      by rewrite Z.add_0_r.
Qed.

Lemma cdecl_arguments_order_witness :
  consume Aarch64CdeclAbi.next 10 Aarch64CdeclAbi.get_arguments init
  = (Returns [RegLoc "X0"; RegLoc "X1"; RegLoc "X2"; RegLoc "X3"; RegLoc "X4";
              RegLoc "X5"; RegLoc "X6"; RegLoc "X7";
              StackLoc (VInt 0); StackLoc (VInt 8)], init).
Proof.
  destruct (cdecl_arguments_order init (mkRegister 64 (VInt 0)) 10)
    as (Hrun & _ & _ & Hsp); [vm_compute; reflexivity|].
  destruct (Hsp 0 eq_refl) as (_ & Hten).
  rewrite Hrun, Hten. reflexivity.
Defined.

(** ** The syscall ABI *)

Section syscall.
Import Aarch64LinuxSyscallAbi.

Lemma fmt_X i reg :
  ["X0"; "X1"; "X2"; "X3"; "X4"; "X5"] !! i = Some reg → fmt "X" i = reg.
Proof.
  do 6 (destruct i as [|i]; [intros [= <-]; vm_compute; reflexivity|]).
  discriminate.
Qed.

Lemma next_register_arg (rf : registers) i :
  (i < 6)%nat → next i rf = (Returns (Some (RegLoc (fmt "X" i), S i)), rf).
Proof. intros Hi. unfold next. by rewrite decide_True. Qed.

Lemma next_stop (rf : registers) i :
  ¬ (i < 6)%nat → next i rf = (Returns None, rf).
Proof. intros Hi. unfold next. by rewrite decide_False. Qed.

Lemma consume_syscall (rf : registers) n i :
  consume next n i rf
  = (Returns (RegLoc <$> take n (drop i ["X0"; "X1"; "X2"; "X3"; "X4"; "X5"])),
     rf).
Proof.
  revert i. induction n as [|n IH]; intros i; [reflexivity|].
  rewrite consume_S. destruct (decide (i < 6)%nat) as [Hi|Hi].
  - erewrite bind_Returns by (by apply next_register_arg). cbv beta iota.
    erewrite bind_Returns by apply IH.
    destruct (lookup_lt_is_Some_2 ["X0"; "X1"; "X2"; "X3"; "X4"; "X5"] i)
      as [reg Hreg]; [simpl; lia|].
    rewrite (drop_S _ _ _ Hreg), (fmt_X _ _ Hreg). reflexivity.
  - erewrite bind_Returns by (by apply next_stop). cbv beta iota.
    rewrite drop_ge by (simpl; lia). by rewrite take_nil.
Qed.
End syscall.

(** C8: however many arguments the consumer requests, the generator of
    [Aarch64LinuxSyscallAbi.get_arguments] yields the registers [X0] ..
    [X5] in order and then stops: never more than 6 locations, and never a
    stack slot. *)
Theorem syscall_arguments_capped (rf : registers) (n : nat) :
  ∃ l, consume Aarch64LinuxSyscallAbi.next n
         Aarch64LinuxSyscallAbi.get_arguments rf = (Returns l, rf)
    ∧ l = RegLoc <$> take n ["X0"; "X1"; "X2"; "X3"; "X4"; "X5"]
    ∧ (List.length l ≤ 6)%nat
    ∧ ∀ a, StackLoc a ∉ l.
Proof.
  eexists. split; [apply consume_syscall|]. rewrite drop_0.
  split; [reflexivity|]. split.
  - rewrite length_fmap, length_take. simpl. lia.
  - intros a [r [Hr _]]%list_elem_of_fmap. discriminate.
Qed.

(** ** Operands *)

(** C9: an operand of a kind that is not modelled is rejected, not
    approximated: [read] raises [UnsupportedOperandKindError] for the
    memory, C-immediate and floating-point kinds, [write] raises it for
    every kind other than register, and a [read] that asks for a width or
    for the carry fails on its assertion for every operand; the register
    file is left as it was. *)
Theorem unsupported_operand_rejected
    (rf : registers) (op : Aarch64Operand.cs_op) :
  let kind := Aarch64Operand.type op in
  (kind ∈ [Aarch64Operand.ARM64_OP_MEM; Aarch64Operand.ARM64_OP_CIMM;
           Aarch64Operand.ARM64_OP_FP] →
   Aarch64Operand.read op None false rf
   = (Raises UnsupportedOperandKindError, rf)
   ∧ ∀ nbits with_carry,
       ∃ e, Aarch64Operand.read op nbits with_carry rf = (Raises e, rf))
  ∧ (kind ≠ Aarch64Operand.ARM64_OP_REG →
     (∀ v, Aarch64Operand.write op v None rf
           = (Raises UnsupportedOperandKindError, rf))
     ∧ ∀ v nbits, ∃ e, Aarch64Operand.write op v nbits rf = (Raises e, rf))
  ∧ (∀ width with_carry,
       Aarch64Operand.read op (Some width) with_carry rf
       = (Raises (AssertionError nbits_is_None), rf))
  ∧ Aarch64Operand.read op None true rf
    = (Raises (AssertionError not_with_carry), rf).
Proof.
  intros kind. subst kind. split; [|split; [|split]].
  - intros Hk.
    assert (Aarch64Operand.read op None false rf
            = (Raises UnsupportedOperandKindError, rf)) as Hread.
    { unfold Aarch64Operand.read.
      erewrite bind_Returns by reflexivity.
      erewrite bind_Returns by reflexivity.
      revert Hk. destruct (Aarch64Operand.type op); intros Hk;
        try reflexivity; apply list_elem_of_In in Hk; simpl in Hk;
        intuition discriminate. }
    split; [exact Hread|]. intros [width|] [|].
    + eexists. unfold Aarch64Operand.read. by erewrite bind_Raises by reflexivity.
    + eexists. unfold Aarch64Operand.read. by erewrite bind_Raises by reflexivity.
    + eexists. unfold Aarch64Operand.read.
      erewrite bind_Returns by reflexivity.
      by erewrite bind_Raises by reflexivity.
    + eexists. exact Hread.
  - intros Hk.
    assert (∀ v, Aarch64Operand.write op v None rf
                 = (Raises UnsupportedOperandKindError, rf)) as Hwrite.
    { intros v. unfold Aarch64Operand.write.
      erewrite bind_Returns by reflexivity.
      by destruct (Aarch64Operand.type op). }
    split; [exact Hwrite|]. intros v [width|].
    + eexists. unfold Aarch64Operand.write. by erewrite bind_Raises by reflexivity.
    + eexists. apply Hwrite.
  - intros width with_carry. unfold Aarch64Operand.read.
    by erewrite bind_Raises by reflexivity.
  - unfold Aarch64Operand.read. erewrite bind_Returns by reflexivity.
    by erewrite bind_Raises by reflexivity.
Qed.

Lemma unsupported_operand_rejected_witness :
  Aarch64Operand.read
    (Aarch64Operand.mkOp Aarch64Operand.ARM64_OP_MEM "X0" 0) None false init
  = (Raises UnsupportedOperandKindError, init)
  ∧ Aarch64Operand.write
      (Aarch64Operand.mkOp Aarch64Operand.ARM64_OP_MEM "X0" 0) 1 None init
    = (Raises UnsupportedOperandKindError, init).
Proof.
  destruct (unsupported_operand_rejected init
              (Aarch64Operand.mkOp Aarch64Operand.ARM64_OP_MEM "X0" 0))
    as (Hread & Hwrite & _).
  split.
  - apply Hread. simpl. apply list_elem_of_here.
  - apply Hwrite. simpl. discriminate.
Defined.

(** * Further properties of the code *)

(** ** The table and the alias layer *)

(** X1: for every name of the table, its parent is a listed register that is
    its own parent (resolving twice is resolving once), and the name is a
    view of positive width not wider than the parent. *)
Theorem parent_closed (name : string) (spec : Regspec) :
  _table !! name = Some spec →
  parent spec ∈ all_registers
  ∧ ∃ pw, _table !! parent spec = Some (mkRegspec (parent spec) pw)
          ∧ 0 < size spec ≤ pw.
Proof.
  intros Hn. destruct (table_parent name spec Hn) as (pspec & Hp & Hpp & Hsz).
  split.
  - unfold all_registers, _all_registers. apply elem_of_dom. by exists pspec.
  - exists (size pspec). split; [|exact Hsz].
    rewrite Hp. f_equal. destruct pspec as [pp ps]. simpl in *. by rewrite Hpp.
Qed.

Lemma parent_closed_witness :
  "Q7" ∈ all_registers
  ∧ ∃ pw, _table !! "Q7" = Some (mkRegspec "Q7" pw) ∧ 0 < 8 ≤ pw.
Proof.
  apply (parent_closed "B7" (mkRegspec "Q7" 8)). vm_compute. reflexivity.
Defined.

Lemma alias_resolves a t :
  _aliases !! a = Some t →
  _alias a = t ∧ _alias t = t ∧ _table !! t = Some (mkRegspec t 64)
  ∧ contains a = true ∧ contains t = true.
Proof.
  intros Ha. destruct (alias_target a t Ha) as (_ & spec & Hs & Hp & Hw).
  assert (_table !! t = Some (mkRegspec t 64)) as Ht.
  { rewrite Hs. f_equal. destruct spec as [p w]. simpl in *. by rewrite Hp, Hw. }
  assert (_alias a = t) as Haa by (unfold _alias; by rewrite Ha).
  pose proof (alias_of_table t _ Ht) as Hat.
  split; [exact Haa|]. split; [exact Hat|]. split; [exact Ht|]. split.
  - apply (contains_resolved a (mkRegspec t 64)). by rewrite Haa.
  - apply (contains_resolved t (mkRegspec t 64)). by rewrite Hat.
Qed.

(** X2: an alias ([STACK], [FP], [IP0], [IP1], [LR]) is not a name of the
    table; it names a 64-bit top-level register, and [read] and [write]
    through the alias are [read] and [write] of that register. *)
Theorem alias_transparent (rf : registers) (a t : string) :
  _aliases !! a = Some t →
  _table !! a = None ∧ _table !! t = Some (mkRegspec t 64)
  ∧ read a rf = read t rf
  ∧ ∀ v, write a v rf = write t v rf.
Proof.
  intros Ha. destruct (alias_resolves a t Ha) as (Haa & Hat & Ht & Hca & Hct).
  split; [apply (alias_target a t Ha)|]. split; [exact Ht|]. split.
  - unfold read. by rewrite Hca, Hct, Haa, Hat.
  - intros v. unfold write. by rewrite Hca, Hct, Haa, Hat.
Qed.

Lemma alias_transparent_witness :
  _table !! "LR" = None ∧ _table !! "X30" = Some (mkRegspec "X30" 64)
  ∧ read "LR" init = read "X30" init
  ∧ ∀ v, write "LR" v init = write "X30" v init.
Proof.
  apply (alias_transparent init "LR" "X30"). vm_compute. reflexivity.
Defined.

(** ** Reading *)

(** What [read] returns depends on the cell of the parent only. *)
Lemma read_cases (rf : registers) name :
  (contains name = false ∧ read name rf = (Raises InvalidRegisterError, rf))
  ∨ (_table !! _alias name = None
     ∧ read name rf = (Raises (KeyError (_alias name)), rf))
  ∨ ∃ spec, _table !! _alias name = Some spec
      ∧ ((rf !! parent spec = None
          ∧ read name rf = (Raises (KeyError (parent spec)), rf))
         ∨ ∃ cell v, rf !! parent spec = Some cell
                     ∧ read name rf = (Returns v, rf)
                     ∧ ∀ rf' : registers, rf' !! parent spec = Some cell →
                         read name rf' = (Returns v, rf')).
Proof.
  destruct (contains name) eqn:Hin;
    [|left; split; [reflexivity|by apply read_unknown]].
  right. destruct (_table !! _alias name) as [spec|] eqn:Hs.
  2:{ left. split; [reflexivity|]. unfold read. rewrite Hin.
      erewrite bind_Returns by apply py_assert_true.
      by erewrite bind_Raises by (by apply getitem_None). }
  right. exists spec. split; [reflexivity|].
  destruct (rf !! parent spec) as [cell|] eqn:Hc.
  2:{ left. split; [reflexivity|]. unfold read. rewrite Hin.
      erewrite bind_Returns by apply py_assert_true.
      erewrite bind_Returns by (by apply getitem_Some).
      erewrite bind_Returns by reflexivity.
      by erewrite bind_Raises by (by apply getitem_None). }
  right. destruct (table_parent _ _ Hs) as (pspec & Hp & _).
  exists cell. eexists. split; [reflexivity|]. split.
  - apply (read_eq rf name spec pspec cell Hs Hp Hc).
  - intros rf' Hc'. apply (read_eq rf' name spec pspec cell Hs Hp Hc').
Qed.

(** X3: [read] never modifies the register file, whether it returns a value
    or raises. *)
Theorem read_never_writes (rf : registers) (name : string) :
  snd (read name rf) = rf.
Proof.
  destruct (read_cases rf name)
    as [[_ ->]|[[_ ->]|(spec & _ & [[_ ->]|(cell & v & _ & -> & _)])]];
    reflexivity.
Qed.

(** X4: on a register file that has a cell for every top-level register
    (the initial one, and every one reached by writes), [read] of a
    recognized name, alias or not, always returns a value: it raises
    neither [KeyError] nor anything else. *)
Theorem read_total (rf : registers) (name : string) :
  wf rf → contains name = true → ∃ v, read name rf = (Returns v, rf).
Proof.
  intros Hwf Hin. destruct (contains_resolves name Hin) as [spec Hs].
  destruct (wf_parent rf _ spec Hwf Hs) as (pspec & cell & Hp & _ & _ & Hc & _).
  eexists. apply (read_eq rf name spec pspec cell Hs Hp Hc).
Qed.

Lemma read_total_witness : ∃ v, read "FP" init = (Returns v, init).
Proof.
  apply (read_total init "FP"); [apply wf_init | vm_compute; reflexivity].
Defined.

(** ** Writing *)

(** X5: on such a register file, [write] of a recognized name returns
    exactly when [v ≤ 2^width - 1], negative values included, and then
    replaces the cell of the parent; otherwise it raises
    [ValueOutOfRangeError] and changes nothing. *)
Theorem write_outcome (rf : registers) (R : string) (v : Z) :
  wf rf → contains R = true →
  ∃ spec cell, _table !! _alias R = Some spec ∧ rf !! parent spec = Some cell
    ∧ write R v rf
      = if decide (v ≤ 2 ^ size spec - 1)
        then (Returns (), <[parent spec := Register_write cell v]> rf)
        else (Raises ValueOutOfRangeError, rf).
Proof.
  intros Hwf Hin. destruct (contains_resolves R Hin) as [spec Hs].
  destruct (wf_parent rf _ spec Hwf Hs) as (pspec & cell & _ & _ & _ & Hc & _).
  exists spec, cell. split; [exact Hs|]. split; [exact Hc|].
  destruct (decide (v ≤ 2 ^ size spec - 1)) as [Hv|Hv].
  - apply (write_eq rf R spec cell v Hs Hv Hc).
  - apply (write_too_large rf R spec v Hs). lia.
Qed.

Lemma write_outcome_witness :
  ∃ spec cell, _table !! _alias "W3" = Some spec
    ∧ init !! parent spec = Some cell
    ∧ write "W3" (-5) init
      = if decide (-5 ≤ 2 ^ size spec - 1)
        then (Returns (), <[parent spec := Register_write cell (-5)]> init)
        else (Raises ValueOutOfRangeError, init).
Proof.
  apply (write_outcome init "W3" (-5));
    [apply wf_init | vm_compute; reflexivity].
Defined.

(** X6: a [write], successful or not, leaves every cell other than the cell
    of the resolved parent as it was, and neither adds nor removes a
    cell. *)
Theorem write_frame (rf : registers) (R : string) (v : Z) :
  dom (snd (write R v rf)) = dom rf
  ∧ ∀ other,
      (∀ spec, _table !! _alias R = Some spec → parent spec ≠ other) →
      snd (write R v rf) !! other = rf !! other.
Proof.
  destruct (write_state rf R v) as [->|(spec & cell & Hs & Hc & ->)].
  - split; [reflexivity|]. intros other _. reflexivity.
  - split.
    + rewrite dom_insert_L. apply elem_of_dom_2 in Hc.
      apply set_eq. intros x. rewrite elem_of_union, elem_of_singleton.
      split; [intros [->|Hx]; assumption|by right].
    + intros other Hne. apply lookup_insert_ne. by apply Hne.
Qed.

Lemma views_of_one_cell (rf : registers) (N1 N2 P : string) (w1 w2 v : Z) :
  wf rf →
  _table !! N1 = Some (mkRegspec P w1) → _table !! N2 = Some (mkRegspec P w2) →
  0 ≤ v < 2 ^ w1 →
  ∃ rf', write N1 v rf = (Returns (), rf')
         ∧ read N2 rf' = (Returns (VInt (v `mod` 2 ^ w2)), rf').
Proof.
  intros Hwf H1 H2 Hv.
  destruct (table_parent _ _ H1) as (pspec & HP & Hpp & Hsz1). simpl in *.
  destruct pspec as [pp pw]. simpl in *. subst pp.
  destruct (table_parent _ _ H2) as (pspec2 & HP2 & _ & Hsz2). simpl in *.
  rewrite HP in HP2. injection HP2 as <-. simpl in *.
  exists (<[P := mkRegister pw (VInt v)]> rf). split.
  - by apply (write_fits rf N1 P w1 pw v).
  - pose proof (alias_of_table _ _ H2) as Ha.
    rewrite (read_eq _ N2 (mkRegspec P w2) (mkRegspec P pw)
               (mkRegister pw (VInt v)));
      rewrite ?Ha; simpl parent; simpl size; simpl value;
      [|assumption|assumption|apply lookup_insert_eq].
    assert (VInt v = VInt (v `mod` 2 ^ pw)) as Hfull.
    { f_equal. symmetry. apply Z.mod_small. split; [lia|].
      eapply Z.lt_le_trans; [apply Hv|]. apply Z.pow_le_mono_r; lia. }
    destruct (decide (N2 ≠ P)) as [Hne|Heq].
    + destruct (w2 <? pw) eqn:Hlt.
      * rewrite EXTRACT_low by lia. reflexivity.
      * apply Z.ltb_ge in Hlt. replace w2 with pw by lia. by rewrite <- Hfull.
    + assert (N2 = P) as -> by (destruct (decide (N2 = P)); [done|by destruct Heq]).
      rewrite H2 in HP. injection HP as ->. by rewrite <- Hfull.
Qed.

(** X7: two names of one parent are views of one cell: after [write] of an
    in-range value [v] through a name [N1], [read] through any name [N2]
    of the same parent returns the low [width N2] bits of [v]. *)
Theorem write_view_read_view
    (rf : registers) (N1 N2 P : string) (w1 w2 v : Z) :
  wf rf →
  _table !! N1 = Some (mkRegspec P w1) → _table !! N2 = Some (mkRegspec P w2) →
  0 ≤ v < 2 ^ w1 →
  ∃ rf', write N1 v rf = (Returns (), rf')
         ∧ read N2 rf' = (Returns (VInt (v `mod` 2 ^ w2)), rf').
Proof. apply views_of_one_cell. Qed.

Lemma write_view_read_view_witness :
  ∃ rf', write "D5" 0x1234567890 init = (Returns (), rf')
         ∧ read "H5" rf' = (Returns (VInt (0x1234567890 `mod` 2 ^ 16)), rf').
Proof.
  apply (write_view_read_view init "D5" "H5" "Q5" 64 16 0x1234567890);
    [apply wf_init | vm_compute; reflexivity | vm_compute; reflexivity | lia].
Defined.

(** X8: the last write wins: a write that passes the range check is fully
    overwritten by a later write through a name of the same width and
    parent, as if the first had not happened. *)
Theorem write_overwrites (rf : registers) (R : string) (spec : Regspec) (v1 v2 : Z) :
  wf rf → _table !! _alias R = Some spec →
  v1 ≤ 2 ^ size spec - 1 → v2 ≤ 2 ^ size spec - 1 →
  write R v2 (snd (write R v1 rf)) = write R v2 rf.
Proof.
  intros Hwf Hs Hv1 Hv2.
  destruct (wf_parent rf _ spec Hwf Hs) as (pspec & cell & _ & _ & _ & Hc & _).
  rewrite (write_eq rf R spec cell v1 Hs Hv1 Hc). simpl snd.
  rewrite (write_eq rf R spec cell v2 Hs Hv2 Hc).
  rewrite (write_eq _ R spec (Register_write cell v1) v2 Hs Hv2)
    by apply lookup_insert_eq.
  by rewrite insert_insert_eq.
Qed.

Lemma write_overwrites_witness :
  write "X9" 7 (snd (write "X9" 3 init)) = write "X9" 7 init.
Proof.
  apply (write_overwrites init "X9" (mkRegspec "X9" 64) 3 7);
    [apply wf_init | vm_compute; reflexivity | simpl; lia | simpl; lia].
Defined.

(** The register file that a [write] of a resolved name leaves behind. *)
Lemma write_snd (rf : registers) R spec v :
  _table !! _alias R = Some spec →
  snd (write R v rf)
  = if decide (v ≤ 2 ^ size spec - 1)
    then match rf !! parent spec with
         | Some cell => <[parent spec := Register_write cell v]> rf
         | None => rf
         end
    else rf.
Proof.
  intros Hs. destruct (decide (v ≤ 2 ^ size spec - 1)) as [Hv|Hv].
  - destruct (rf !! parent spec) as [cell|] eqn:Hc.
    + by rewrite (write_eq rf R spec cell v Hs Hv Hc).
    + unfold write. rewrite (contains_resolved _ _ Hs).
      erewrite bind_Returns by apply py_assert_true.
      erewrite bind_Returns by (by apply getitem_Some).
      rewrite (proj2 (Z.leb_le _ _) Hv).
      erewrite bind_Returns by apply py_assert_true.
      erewrite bind_Returns by reflexivity.
      by erewrite bind_Raises by (by apply getitem_None).
  - rewrite (write_too_large rf R spec v Hs); [reflexivity|lia].
Qed.

(** X9: writes to registers of different parents commute: the register
    file after both does not depend on their order. *)
Theorem write_commutes
    (rf : registers) (R1 R2 : string) (spec1 spec2 : Regspec) (v1 v2 : Z) :
  _table !! _alias R1 = Some spec1 → _table !! _alias R2 = Some spec2 →
  parent spec1 ≠ parent spec2 →
  snd (write R2 v2 (snd (write R1 v1 rf)))
  = snd (write R1 v1 (snd (write R2 v2 rf))).
Proof.
  intros Hs1 Hs2 Hne.
  rewrite (write_snd (snd (write R1 v1 rf)) R2 spec2 v2 Hs2).
  rewrite (write_snd (snd (write R2 v2 rf)) R1 spec1 v1 Hs1).
  rewrite (write_snd rf R1 spec1 v1 Hs1), (write_snd rf R2 spec2 v2 Hs2).
  destruct (decide (v1 ≤ 2 ^ size spec1 - 1)) as [Hv1|Hv1];
    destruct (decide (v2 ≤ 2 ^ size spec2 - 1)) as [Hv2|Hv2];
    try reflexivity.
  destruct (rf !! parent spec1) as [c1|] eqn:Hc1;
    destruct (rf !! parent spec2) as [c2|] eqn:Hc2;
    rewrite ?lookup_insert_ne by (exact Hne || (intros E; exact (Hne (eq_sym E))));
    rewrite ?Hc1, ?Hc2; try reflexivity.
  apply insert_insert_ne. intros E. exact (Hne (eq_sym E)).
Qed.

Lemma write_commutes_witness :
  snd (write "S1" 2 (snd (write "W0" 1 init)))
  = snd (write "W0" 1 (snd (write "S1" 2 init))).
Proof.
  apply (write_commutes init "W0" "S1" (mkRegspec "X0" 32) (mkRegspec "Q1" 32));
    [vm_compute; reflexivity | vm_compute; reflexivity | discriminate].
Defined.

(** ** The life of a register file *)

Lemma after_writes_wf (rf : registers) ws : wf rf → wf (after_writes rf ws).
Proof.
  revert rf. induction ws as [|[R v] ws IH]; intros rf Hwf; [exact Hwf|].
  apply IH. by apply wf_write.
Qed.

Lemma after_writes_dom (rf : registers) ws : dom (after_writes rf ws) = dom rf.
Proof.
  revert rf. induction ws as [|[R v] ws IH]; intros rf; [reflexivity|].
  unfold after_writes in *. simpl. rewrite IH.
  destruct (write_state rf R v) as [->|(spec & cell & _ & Hc & ->)];
    [reflexivity|].
  rewrite dom_insert_L. apply elem_of_dom_2 in Hc.
  apply set_eq. intros x. rewrite elem_of_union, elem_of_singleton.
  split; [intros [->|Hx]; assumption|by right].
Qed.

Lemma init_cells name :
  is_Some (init !! name) ↔ ∃ w, _table !! name = Some (mkRegspec name w).
Proof.
  unfold init. rewrite map_lookup_imap. split.
  - intros [cell Hcell]. destruct (_table !! name) as [[p w]|]; [|discriminate].
    simpl in Hcell. unfold init_cell in Hcell. simpl in Hcell.
    destruct (decide (name ≠ p)) as [|Heq]; [discriminate|].
    exists w. do 2 f_equal. destruct (decide (name = p)); [done|by destruct Heq].
  - intros [w ->]. simpl. unfold init_cell. simpl.
    rewrite decide_False; [by eexists|]. intros Hne. by apply Hne.
Qed.

(** X10: however many writes follow the construction of the register file,
    and whether they return or raise, it holds exactly one cell per
    top-level register, of the declared width; narrow names and aliases
    never get a cell of their own. *)
Theorem cells_are_parents (ws : list (string * Z)) (name : string) :
  let rf := after_writes init ws in
  wf rf
  ∧ (is_Some (rf !! name) ↔ ∃ w, _table !! name = Some (mkRegspec name w)).
Proof.
  intros rf. split; [apply after_writes_wf, wf_init|].
  rewrite <- init_cells, <- !elem_of_dom. subst rf.
  by rewrite after_writes_dom.
Qed.

(** ** The listed registers *)

(** X11: [all_registers] lists exactly the names of the table and
    [canonical_registers] those but [FPSR] and [FPCR], which are listed;
    every listed name is recognized by [in], while an alias is recognized
    without being listed. *)
Theorem listed_registers (name : string) :
  (name ∈ all_registers ↔ is_Some (_table !! name))
  ∧ (name ∈ canonical_registers
     ↔ name ∈ all_registers ∧ name ≠ "FPSR" ∧ name ≠ "FPCR")
  ∧ "FPSR" ∈ all_registers ∧ "FPCR" ∈ all_registers
  ∧ (name ∈ all_registers → contains name = true)
  ∧ (is_Some (_aliases !! name) →
     contains name = true ∧ name ∉ all_registers).
Proof.
  unfold canonical_registers, all_registers, _all_registers.
  split; [apply elem_of_dom|]. split; [|split; [|split; [|split]]].
  - cbv zeta. rewrite elem_of_difference, !not_elem_of_union,
      !elem_of_singleton. split.
    + intros (Hin & [_ H1] & H2). exact (conj Hin (conj H1 H2)).
    + intros (Hin & H1 & H2). split; [exact Hin|].
      split; [split|]; [apply not_elem_of_empty|exact H1|exact H2].
  - apply elem_of_dom. eexists. vm_compute. reflexivity.
  - apply elem_of_dom. eexists. vm_compute. reflexivity.
  - intros [spec Hs]%elem_of_dom. apply (contains_resolved name spec).
    by rewrite (alias_of_table name spec Hs).
  - intros [t Ha]. destruct (alias_resolves name t Ha) as (_ & _ & _ & Hc & _).
    split; [exact Hc|]. rewrite elem_of_dom.
    destruct (alias_target name t Ha) as [-> _]. by intros [? ?].
Qed.

Lemma listed_registers_witness :
  contains "STACK" = true ∧ "STACK" ∉ all_registers.
Proof.
  destruct (listed_registers "STACK") as (_ & _ & _ & _ & _ & Halias).
  apply Halias. eexists. vm_compute. reflexivity.
Defined.

(** ** The calling-convention ABI, request by request *)

Lemma STACK_missing (rf : registers) :
  rf !! "SP" = None → Aarch64Cpu.STACK rf = (Raises (KeyError "SP"), rf).
Proof.
  intros Hc. unfold Aarch64Cpu.STACK, read.
  rewrite (contains_resolved "STACK" _ table_STACK).
  erewrite bind_Returns by apply py_assert_true.
  erewrite bind_Returns by (apply getitem_Some; exact table_STACK).
  erewrite bind_Returns by reflexivity.
  by erewrite bind_Raises by (apply getitem_None; exact Hc).
Qed.

Lemma consume_only_registers (rf : registers) n i :
  (n + i ≤ 8)%nat →
  consume Aarch64CdeclAbi.next n (Aarch64CdeclAbi.in_registers i) rf
  = (Returns (RegLoc <$> take n (drop i Aarch64CdeclAbi.argument_registers)),
     rf).
Proof.
  revert i. induction n as [|n IH]; intros i Hn; [reflexivity|].
  destruct (lookup_lt_is_Some_2 Aarch64CdeclAbi.argument_registers i)
    as [reg Hreg]; [simpl; lia|].
  rewrite consume_S.
  erewrite bind_Returns by (by apply next_register). cbv beta iota.
  erewrite bind_Returns by (apply IH; lia).
  by rewrite (drop_S _ _ _ Hreg).
Qed.

Lemma consume_no_stack_pointer (rf : registers) n i :
  rf !! "SP" = None → (8 - i < n)%nat →
  consume Aarch64CdeclAbi.next n (Aarch64CdeclAbi.in_registers i) rf
  = (Raises (KeyError "SP"), rf).
Proof.
  intros Hc. revert i. induction n as [|n IH]; intros i Hn; [lia|].
  rewrite consume_S.
  destruct (Aarch64CdeclAbi.argument_registers !! i) as [reg|] eqn:Hi.
  - erewrite bind_Returns by (by apply next_register). cbv beta iota.
    apply lookup_lt_Some in Hi. simpl in Hi.
    by erewrite bind_Raises by (apply IH; lia).
  - erewrite bind_Raises; [reflexivity|].
    unfold Aarch64CdeclAbi.next. rewrite Hi.
    by erewrite bind_Raises by (by apply STACK_missing).
Qed.

(** X12: the first eight requests to the generator of
    [Aarch64CdeclAbi.get_arguments] do not consult the register file: they
    yield [X0] .. [X7] on any register file.  The stack pointer is read at
    the ninth request: on a register file without a cell for [SP] nine or
    more requests raise [KeyError]. *)
Theorem cdecl_registers_before_stack (rf : registers) (n : nat) :
  ((n ≤ 8)%nat →
   consume Aarch64CdeclAbi.next n Aarch64CdeclAbi.get_arguments rf
   = (Returns
        (RegLoc <$> take n ["X0"; "X1"; "X2"; "X3"; "X4"; "X5"; "X6"; "X7"]),
      rf))
  ∧ ((8 < n)%nat → rf !! "SP" = None →
     consume Aarch64CdeclAbi.next n Aarch64CdeclAbi.get_arguments rf
     = (Raises (KeyError "SP"), rf)).
Proof.
  split.
  - intros Hn. unfold Aarch64CdeclAbi.get_arguments.
    rewrite consume_only_registers by lia. by rewrite drop_0.
  - intros Hn Hc. apply consume_no_stack_pointer; [exact Hc|lia].
Qed.

Lemma cdecl_registers_before_stack_witness :
  consume Aarch64CdeclAbi.next 8 Aarch64CdeclAbi.get_arguments ∅
  = (Returns
       (RegLoc <$> take 8 ["X0"; "X1"; "X2"; "X3"; "X4"; "X5"; "X6"; "X7"]), ∅)
  ∧ consume Aarch64CdeclAbi.next 9 Aarch64CdeclAbi.get_arguments ∅
    = (Raises (KeyError "SP"), ∅).
Proof.
  split.
  - apply (cdecl_registers_before_stack ∅ 8). lia.
  - apply (cdecl_registers_before_stack ∅ 9); [lia|apply lookup_empty].
Defined.

(** X13: the stack pointer is sampled once: the request after the eight
    registers reads [SP] and yields its value, and every later request
    yields the next slot counted from that value, on whatever register
    file it is made, so a later change of [SP] does not move the slots. *)
Theorem cdecl_stack_pointer_sampled_once (rf : registers) (cell : Register) :
  rf !! "SP" = Some cell →
  ∃ g, Aarch64CdeclAbi.next (Aarch64CdeclAbi.in_registers 8) rf
       = (Returns (Some (StackLoc (value cell), g)), rf)
    ∧ ∀ (rf' : registers) n,
        consume Aarch64CdeclAbi.next n g rf'
        = (Returns ((λ k, StackLoc (stack_slot (value cell) (S k)))
                      <$> seq 0 n), rf').
Proof.
  intros Hc. eexists. split.
  - rewrite (next_first_slot rf 8 cell); [reflexivity|reflexivity|exact Hc].
  - intros rf' n. rewrite consume_values_from. do 2 f_equal.
    apply list_fmap_ext. intros _ k _. by rewrite stack_slot_shift.
Qed.

Lemma cdecl_stack_pointer_sampled_once_witness :
  ∃ g, Aarch64CdeclAbi.next (Aarch64CdeclAbi.in_registers 8) init
       = (Returns (Some (StackLoc (VInt 0), g)), init)
    ∧ ∀ (rf' : registers) n,
        consume Aarch64CdeclAbi.next n g rf'
        = (Returns ((λ k, StackLoc (stack_slot (VInt 0) (S k))) <$> seq 0 n),
           rf').
Proof.
  apply (cdecl_stack_pointer_sampled_once init (mkRegister 64 (VInt 0))).
  vm_compute. reflexivity.
Defined.

(** ** Results and syscall numbers *)

Lemma table_X0 : _table !! "X0" = Some (mkRegspec "X0" 64).
Proof. vm_compute. reflexivity. Qed.

Lemma table_W0 : _table !! "W0" = Some (mkRegspec "X0" 32).
Proof. vm_compute. reflexivity. Qed.

Lemma table_X8 : _table !! "X8" = Some (mkRegspec "X8" 64).
Proof. vm_compute. reflexivity. Qed.

(** X14: [write_result] of both ABIs stores the result in [X0]: for
    [0 ≤ v < 2^64] it returns, [X0] then reads [v] and [W0] its low 32
    bits, and every other cell is as before; for [v ≥ 2^64] it raises
    [ValueOutOfRangeError] and changes nothing. *)
Theorem write_result_stores_X0 (rf : registers) (v : Z) :
  wf rf →
  Aarch64LinuxSyscallAbi.write_result v rf = Aarch64CdeclAbi.write_result v rf
  ∧ (0 ≤ v < 2 ^ 64 →
     ∃ rf', Aarch64CdeclAbi.write_result v rf = (Returns (), rf')
       ∧ read "X0" rf' = (Returns (VInt v), rf')
       ∧ read "W0" rf' = (Returns (VInt (v `mod` 2 ^ 32)), rf')
       ∧ ∀ other, other ≠ "X0" → rf' !! other = rf !! other)
  ∧ (2 ^ 64 ≤ v →
     Aarch64CdeclAbi.write_result v rf = (Raises ValueOutOfRangeError, rf)).
Proof.
  intros Hwf. split; [reflexivity|]. split.
  - intros Hv. exists (<["X0" := mkRegister 64 (VInt v)]> rf).
    unfold Aarch64CdeclAbi.write_result, Aarch64Cpu.setattr.
    split; [apply (write_fits rf "X0" "X0" 64 64 v Hwf table_X0 table_X0 Hv)|].
    split; [|split].
    + apply (read_parent _ "X0" 64 (mkRegister 64 (VInt v)) table_X0).
      apply lookup_insert_eq.
    + pose proof (alias_of_table _ _ table_W0) as Ha.
      rewrite (read_narrow _ "W0" (mkRegspec "X0" 32) (mkRegspec "X0" 64)
                 (mkRegister 64 (VInt v)));
        rewrite ?Ha; simpl value; simpl size; simpl parent;
        [by rewrite EXTRACT_low|exact table_W0|exact table_X0|lia|].
      apply lookup_insert_eq.
    + intros other Hne. apply lookup_insert_ne. congruence.
  - intros Hv. unfold Aarch64CdeclAbi.write_result, Aarch64Cpu.setattr.
    apply (write_too_large rf "X0" (mkRegspec "X0" 64) v); [|exact Hv].
    by rewrite (alias_of_table _ _ table_X0), table_X0.
Qed.

Lemma write_result_stores_X0_witness :
  ∃ rf', Aarch64CdeclAbi.write_result 42 init = (Returns (), rf')
    ∧ read "X0" rf' = (Returns (VInt 42), rf')
    ∧ read "W0" rf' = (Returns (VInt (42 `mod` 2 ^ 32)), rf')
    ∧ ∀ other, other ≠ "X0" → rf' !! other = init !! other.
Proof.
  destruct (write_result_stores_X0 init 42 wf_init) as (_ & Hok & _).
  apply Hok. lia.
Defined.

(** X15: [syscall_number] is the content of [X8]; it does not change the
    register file, and [write_result], whatever its outcome, does not
    change the syscall number. *)
Theorem syscall_number_is_X8 (rf : registers) (cell : Register) :
  rf !! "X8" = Some cell →
  Aarch64LinuxSyscallAbi.syscall_number rf = (Returns (value cell), rf)
  ∧ ∀ result,
      Aarch64LinuxSyscallAbi.syscall_number
        (snd (Aarch64LinuxSyscallAbi.write_result result rf))
      = (Returns (value cell),
         snd (Aarch64LinuxSyscallAbi.write_result result rf)).
Proof.
  intros Hc.
  unfold Aarch64LinuxSyscallAbi.syscall_number, Aarch64Cpu.getattr.
  split; [by apply (read_parent rf "X8" 64 cell table_X8)|].
  intros result. apply (read_parent _ "X8" 64 cell table_X8).
  unfold Aarch64LinuxSyscallAbi.write_result, Aarch64Cpu.setattr.
  rewrite (write_snd rf "X0" (mkRegspec "X0" 64) result)
    by (by rewrite (alias_of_table _ _ table_X0), table_X0).
  simpl parent. destruct (decide _); [|exact Hc].
  destruct (rf !! "X0"); [|exact Hc]. by rewrite lookup_insert_ne.
Qed.

Lemma syscall_number_is_X8_witness :
  Aarch64LinuxSyscallAbi.syscall_number init = (Returns (VInt 0), init)
  ∧ ∀ result,
      Aarch64LinuxSyscallAbi.syscall_number
        (snd (Aarch64LinuxSyscallAbi.write_result result init))
      = (Returns (VInt 0),
         snd (Aarch64LinuxSyscallAbi.write_result result init)).
Proof.
  apply (syscall_number_is_X8 init (mkRegister 64 (VInt 0))).
  vm_compute. reflexivity.
Defined.

(** ** Canonical names *)

Lemma canonical_upper instr :
  Aarch64Cpu.upper (Aarch64Cpu.canonicalize_instruction_name instr)
  = Aarch64Cpu.canonicalize_instruction_name instr.
Proof.
  destruct (decide (Aarch64Cpu.upper (Aarch64Cpu.insn_name instr) = "MOV"))
    as [He|Hn].
  - rewrite (canonicalize_MOV instr He). repeat case_match; reflexivity.
  - rewrite (canonicalize_other instr Hn). apply upper_idem.
Qed.

(** X16: a canonical name is upper case; it depends on the reported name
    only up to letter case; and unless the reported name is [MOV] (in any
    case) it is the reported name in upper case, whatever the mnemonic
    text. *)
Theorem canonical_name_upper_case (instr : Aarch64Cpu.CsInsn) :
  let canonicalize := Aarch64Cpu.canonicalize_instruction_name in
  Aarch64Cpu.upper (canonicalize instr) = canonicalize instr
  ∧ (∀ name, Aarch64Cpu.upper name
             = Aarch64Cpu.upper (Aarch64Cpu.insn_name instr) →
       canonicalize (Aarch64Cpu.mkCsInsn name (Aarch64Cpu.mnemonic instr))
       = canonicalize instr)
  ∧ (Aarch64Cpu.upper (Aarch64Cpu.insn_name instr) ≠ "MOV" →
     ∀ text,
       canonicalize (Aarch64Cpu.mkCsInsn (Aarch64Cpu.insn_name instr) text)
       = Aarch64Cpu.upper (Aarch64Cpu.insn_name instr)).
Proof.
  intros canonicalize. subst canonicalize. split; [apply canonical_upper|].
  split.
  - intros name Hname. unfold Aarch64Cpu.canonicalize_instruction_name.
    simpl. by rewrite Hname.
  - intros Hne text. by rewrite canonicalize_other.
Qed.

Lemma canonical_name_upper_case_witness :
  Aarch64Cpu.canonicalize_instruction_name (Aarch64Cpu.mkCsInsn "Movz" "lsl")
  = "MOVZ"
  ∧ Aarch64Cpu.canonicalize_instruction_name (Aarch64Cpu.mkCsInsn "mOvZ" "movz")
    = Aarch64Cpu.canonicalize_instruction_name (Aarch64Cpu.mkCsInsn "movz" "movz").
Proof.
  split.
  - destruct (canonical_name_upper_case (Aarch64Cpu.mkCsInsn "Movz" "movz"))
      as (_ & _ & Hother).
    apply (Hother ltac:(vm_compute; discriminate) "lsl").
  - destruct (canonical_name_upper_case (Aarch64Cpu.mkCsInsn "movz" "movz"))
      as (_ & Hcase & _).
    apply (Hcase "mOvZ"). vm_compute. reflexivity.
Defined.

(** ** Operands that are modelled *)

(** X17: with the default arguments a register operand is a view of the
    register file like the name it carries: a value written through one
    register operand is read back, cut to the width of the view, through
    any register operand on the same parent; an immediate operand reads as
    its literal on every register file and leaves it unchanged. *)
Theorem operand_views (rf : registers) (dst src : Aarch64Operand.cs_op) :
  (∀ P w1 w2 v,
     wf rf →
     Aarch64Operand.type dst = Aarch64Operand.ARM64_OP_REG →
     Aarch64Operand.type src = Aarch64Operand.ARM64_OP_REG →
     _table !! Aarch64Operand.reg dst = Some (mkRegspec P w1) →
     _table !! Aarch64Operand.reg src = Some (mkRegspec P w2) →
     0 ≤ v < 2 ^ w1 →
     ∃ rf', Aarch64Operand.write dst v None rf = (Returns (), rf')
       ∧ Aarch64Operand.read src None false rf'
         = (Returns (VInt (v `mod` 2 ^ w2)), rf'))
  ∧ (Aarch64Operand.type src = Aarch64Operand.ARM64_OP_IMM →
     Aarch64Operand.read src None false rf
     = (Returns (VInt (Aarch64Operand.imm src)), rf)).
Proof.
  split.
  - intros P w1 w2 v Hwf Hd Hs H1 H2 Hv.
    destruct (views_of_one_cell rf _ _ P w1 w2 v Hwf H1 H2 Hv)
      as (rf' & Hw & Hr).
    exists rf'. split.
    + unfold Aarch64Operand.write. erewrite bind_Returns by reflexivity.
      by rewrite Hd.
    + unfold Aarch64Operand.read. erewrite bind_Returns by reflexivity.
      erewrite bind_Returns by reflexivity. by rewrite Hs.
  - intros Hs. unfold Aarch64Operand.read.
    erewrite bind_Returns by reflexivity.
    erewrite bind_Returns by reflexivity. by rewrite Hs.
Qed.

Lemma operand_views_witness :
  ∃ rf',
    Aarch64Operand.write
      (Aarch64Operand.mkOp Aarch64Operand.ARM64_OP_REG "X2" 0)
      0x1FFFFFFFF None init = (Returns (), rf')
    ∧ Aarch64Operand.read
        (Aarch64Operand.mkOp Aarch64Operand.ARM64_OP_REG "W2" 0) None false rf'
      = (Returns (VInt (0x1FFFFFFFF `mod` 2 ^ 32)), rf').
Proof.
  destruct (operand_views init
              (Aarch64Operand.mkOp Aarch64Operand.ARM64_OP_REG "X2" 0)
              (Aarch64Operand.mkOp Aarch64Operand.ARM64_OP_REG "W2" 0))
    as [Hreg _].
  apply (Hreg "X2" 64 32 0x1FFFFFFFF);
    [apply wf_init | reflexivity | reflexivity | vm_compute; reflexivity
    | vm_compute; reflexivity | lia].
Defined.
